(** * Registration and ticket inventory: a shallow embedding

    The development follows [src/lib/services/registrationService.ts]
    (the Firestore-backed services), the [useRegistration] hook with its
    [submitRegistrationMutation] (kept in [src/lib/utils/dataUtils.ts]),
    the validation module with [createCustomFieldValidation]
    ([lib/validations/registration.ts]) and the types of
    [lib/types/registration.ts].

    JavaScript numbers are modelled by [Z]: quantities are counts and prices
    are amounts in the integer range, where [+], [*] and [<] are exact.
    A Firestore collection is a finite map from document ids to document
    data.  An [async] function is a computation over the store that may
    throw; what was written before the throw stays written. *)

From stdpp Require Import base strings pretty gmap list sorting.
From Stdlib Require Import ZArith Lia.

Local Open Scope Z_scope.

(** ** Data model ([lib/types/registration.ts]) *)

Inductive Status := pending | confirmed | cancelled | waitlisted.
Inductive PaymentStatus := pay_pending | pay_completed | pay_failed | pay_refunded.

#[global] Instance Status_eq_dec : EqDecision Status.
Proof. solve_decision. Defined.
#[global] Instance PaymentStatus_eq_dec : EqDecision PaymentStatus.
Proof. solve_decision. Defined.

Record TicketType := mkTicketType {
  tt_id : string;
  tt_name : string;
  tt_price : Z;
  tt_maxQuantity : Z;
  tt_availableQuantity : Z;
  tt_isActive : bool
}.

Record TicketSelection := mkSelection {
  sel_ticketTypeId : string;
  sel_quantity : Z;
  sel_price : Z
}.

(** A value of type [any], as far as the validators tell values apart. *)
Inductive JsValue :=
| JsUndefined
| JsNull
| JsBool (b : bool)
| JsNumber (n : Z)
| JsString (s : string)
| JsObject.

Inductive FieldType :=
| ft_text | ft_email | ft_phone | ft_select
| ft_checkbox | ft_textarea | ft_file | ft_date.

Record FieldValidation := mkFieldValidation {
  fv_minLength : option Z;
  fv_maxLength : option Z;
  fv_pattern : option string;
  fv_fileTypes : option (list string);
  fv_maxFileSize : option Z
}.

Record CustomField := mkCustomField {
  cf_id : string;
  cf_name : string;
  cf_label : string;
  cf_type : FieldType;
  cf_required : bool;
  cf_placeholder : option string;
  cf_options : option (list string);
  cf_validation : option FieldValidation;
  cf_order : Z
}.

Record RegistrationFormConfig := mkFormConfig {
  fc_id : string;
  fc_eventId : string;
  fc_title : string;
  fc_customFields : list CustomField;
  fc_allowGroupRegistration : bool;
  fc_maxGroupSize : option Z;
  fc_requiresApproval : bool;
  fc_isActive : bool
}.

Record UploadedFile := mkUploadedFile {
  uf_id : string;
  uf_fieldId : string;
  uf_fileName : string;
  uf_fileUrl : string;
  uf_fileSize : Z;
  uf_mimeType : string;
  uf_uploadedAt : Z
}.

(** [Omit<Participant, 'id' | 'uploadedFiles'>], what a form carries. *)
Record ParticipantInput := mkParticipantInput {
  pi_firstName : string;
  pi_lastName : string;
  pi_email : string;
  pi_phone : option string;
  pi_customFieldValues : gmap string JsValue
}.

Record Participant := mkParticipant {
  p_id : string;
  p_input : ParticipantInput;
  p_uploadedFiles : list UploadedFile
}.

Record RegistrationFormData := mkFormData {
  fd_primaryParticipant : ParticipantInput;
  fd_additionalParticipants : list ParticipantInput;
  fd_ticketSelections : list TicketSelection;
  fd_agreeToTerms : bool;
  fd_marketingOptIn : option bool
}.

(** [Omit<Registration, 'id' | 'createdAt' | 'updatedAt'>]: what
    [createRegistration] receives.  Dates are instants in milliseconds. *)
Record RegistrationData := mkRegistrationData {
  rd_eventId : string;
  rd_formConfigId : string;
  rd_primaryParticipant : Participant;
  rd_additionalParticipants : list Participant;
  rd_ticketSelections : list TicketSelection;
  rd_totalAmount : Z;
  rd_status : Status;
  rd_paymentStatus : PaymentStatus;
  rd_registrationDate : Z;
  rd_confirmationCode : string
}.

(** A stored registration document; its id is its key in the collection. *)
Record Registration := mkRegistration {
  r_eventId : string;
  r_formConfigId : string;
  r_primaryParticipant : Participant;
  r_additionalParticipants : list Participant;
  r_ticketSelections : list TicketSelection;
  r_totalAmount : Z;
  r_status : Status;
  r_paymentStatus : PaymentStatus;
  r_registrationDate : Z;
  r_confirmationCode : string;
  r_approvedAt : option Z;
  r_createdAt : Z;
  r_updatedAt : Z
}.

(** A stored ticket-type document ([Omit<TicketType, 'id'>]). *)
Record TicketTypeData := mkTicketTypeData {
  td_name : string;
  td_price : Z;
  td_maxQuantity : Z;
  td_availableQuantity : Z;
  td_isActive : bool
}.

Record RegistrationSummary := mkSummary {
  totalRegistrations : Z;
  confirmedRegistrations : Z;
  pendingRegistrations : Z;
  totalRevenue : Z;
  ticketsSold : gmap string Z;
  registrationsByDate : gmap Z Z
}.

(** ** The store and the computations over it *)

(** A request the store has served. *)
Inductive Served :=
| Added_registration (id : string)
| Updated_registration (id : string)
| Queried_registrations (eventId : string)
| Got_ticketType (id : string)
| Updated_ticketType (id : string) (availableQuantity : Z).

(** The two Firestore collections the subsystem uses, together with what the
    environment decides: [outages] tells, call by call, whether the next
    Firestore request is rejected (an exhausted list means no more
    rejections); [clock] is what [new Date()] reads; [random] and [cursor]
    are the source behind [Math.random] and [crypto.randomUUID].  [journal]
    keeps the requests served so far, oldest first; nothing reads it. *)
Record World := mkWorld {
  col_registrations : gmap string Registration;
  col_ticketTypes : gmap string TicketTypeData;
  outages : list bool;
  clock : Z;
  random : nat → nat;
  cursor : nat;
  journal : list Served
}.

Definition set_registrations (f : gmap string Registration → gmap string Registration)
    (w : World) : World :=
  mkWorld (f (col_registrations w)) (col_ticketTypes w) (outages w) (clock w)
          (random w) (cursor w) (journal w).

Definition set_ticketTypes (f : gmap string TicketTypeData → gmap string TicketTypeData)
    (w : World) : World :=
  mkWorld (col_registrations w) (f (col_ticketTypes w)) (outages w) (clock w)
          (random w) (cursor w) (journal w).

Definition set_outages (o : list bool) (w : World) : World :=
  mkWorld (col_registrations w) (col_ticketTypes w) o (clock w) (random w) (cursor w)
          (journal w).

Definition set_cursor (c : nat) (w : World) : World :=
  mkWorld (col_registrations w) (col_ticketTypes w) (outages w) (clock w) (random w) c
          (journal w).
Arguments set_cursor : simpl never.

Definition served (request : Served) (w : World) : World :=
  mkWorld (col_registrations w) (col_ticketTypes w) (outages w) (clock w) (random w)
          (cursor w) (journal w ++ [request]).

Inductive Result (A : Type) :=
| Ok (a : A)
| Throw (message : string).
Arguments Ok {A} a.
Arguments Throw {A} message.

Definition IO (A : Type) : Type := World → Result A * World.

Definition ret {A} (a : A) : IO A := λ w, (Ok a, w).
Definition throw {A} (message : string) : IO A := λ w, (Throw message, w).
Definition bind {A B} (c : IO A) (k : A → IO B) : IO B :=
  λ w, match c w with
       | (Ok a, w') => k a w'
       | (Throw e, w') => (Throw e, w')
       end.
(** A step that returns or throws without touching the world. *)
Definition settle {A} (r : Result A) : IO A := λ w, (r, w).
(** [try { c } catch (error) { h error }] *)
Definition try_catch {A} (c : IO A) (h : string → IO A) : IO A :=
  λ w, match c w with
       | (Ok a, w') => (Ok a, w')
       | (Throw e, w') => h e w'
       end.

Declare Scope io_scope.
Delimit Scope io_scope with io.
Notation "'let*' x := c 'in' k" := (bind c (λ x, k))
  (at level 10, x name, c at level 100, k at level 200) : io_scope.
Notation "c >> k" := (bind c (λ _, k))
  (at level 100, k at level 200, right associativity) : io_scope.
Local Open Scope io_scope.

(** [for (const x of xs) { await body(x) }] *)
Fixpoint for_of {A} (xs : list A) (body : A → IO unit) : IO unit :=
  match xs with
  | [] => ret tt
  | x :: rest => body x >> for_of rest body
  end.

(** *** Firestore requests *)

(** Whether the request now issued is rejected by the backend. *)
Definition rejected : IO bool :=
  λ w, match outages w with
       | [] => (Ok false, w)
       | b :: later => (Ok b, set_outages later w)
       end.

Definition request {A} (c : IO A) : IO A :=
  let* down := rejected in
  if down then throw "unavailable" else c.

(** [addDoc(collection(db, 'registrations'), r)]: a new document under an
    id not yet in the collection. *)
Definition addDoc_registration (r : Registration) : IO string :=
  request (λ w,
    let id := fresh (dom (col_registrations w)) in
    (Ok id, served (Added_registration id) (set_registrations (insert id r) w))).

(** [updateDoc(doc(db, 'registrations', id), fields)]: fails on a document
    that does not exist, otherwise overwrites the given fields. *)
Definition updateDoc_registration (id : string) (fields : Registration → Registration)
    : IO unit :=
  request (λ w,
    match col_registrations w !! id with
    | None => (Throw "not-found", w)
    | Some _ =>
        (Ok tt, served (Updated_registration id) (set_registrations (alter fields id) w))
    end).

(** [getDocs(query(collection(db, 'registrations'), where('eventId', '==', e),
    orderBy('registrationDate', 'desc')))]: documents of equal date come in
    the store's own order. *)
Definition later_first (a b : string * Registration) : Prop :=
  r_registrationDate b.2 ≤ r_registrationDate a.2.
#[global] Instance later_first_dec a b : Decision (later_first a b).
Proof. unfold later_first. apply _. Defined.

Definition getDocs_registrations (eventId : string) : IO (list (string * Registration)) :=
  request (λ w,
    (Ok (merge_sort later_first
           (filter (λ d, r_eventId d.2 = eventId) (map_to_list (col_registrations w)))),
     served (Queried_registrations eventId) w)).

(** [getDoc(doc(db, 'ticketTypes', id))]; [None] when [exists()] is false. *)
Definition getDoc_ticketType (id : string) : IO (option TicketTypeData) :=
  request (λ w, (Ok (col_ticketTypes w !! id), served (Got_ticketType id) w)).

Definition with_availableQuantity (q : Z) (d : TicketTypeData) : TicketTypeData :=
  mkTicketTypeData (td_name d) (td_price d) (td_maxQuantity d) q (td_isActive d).

(** [updateDoc(doc(db, 'ticketTypes', id), { availableQuantity: q })] *)
Definition updateDoc_ticketType (id : string) (q : Z) : IO unit :=
  request (λ w,
    match col_ticketTypes w !! id with
    | None => (Throw "not-found", w)
    | Some _ =>
        (Ok tt, served (Updated_ticketType id q)
                  (set_ticketTypes (alter (with_availableQuantity q) id) w))
    end).

(** [new Date()] *)
Definition Date_now : IO Z := λ w, (Ok (clock w), w).

(** The next value of the random source. *)
Definition next_random : IO nat :=
  λ w, (Ok (random w (cursor w)), set_cursor (S (cursor w)) w).

(** [crypto.randomUUID()] *)
Definition randomUUID : IO string :=
  let* n := next_random in ret ("uuid-" +:+ pretty n).

(** ** [registrationService] *)

Definition stored (data : RegistrationData) (now : Z) : Registration :=
  mkRegistration (rd_eventId data) (rd_formConfigId data)
    (rd_primaryParticipant data) (rd_additionalParticipants data)
    (rd_ticketSelections data) (rd_totalAmount data)
    (rd_status data) (rd_paymentStatus data)
    (rd_registrationDate data) (rd_confirmationCode data)
    None now now.

Definition createRegistration (registrationData : RegistrationData) : IO string :=
  try_catch
    (let* now := Date_now in
     addDoc_registration (stored registrationData now))
    (λ _, throw "Failed to create registration").

Definition getEventRegistrations (eventId : string) : IO (list (string * Registration)) :=
  try_catch (getDocs_registrations eventId)
    (λ _, throw "Failed to get event registrations").

(** The fields [updateRegistrationStatus] collects in [updateData]. *)
Definition updateData (status : Status) (paymentStatus : option PaymentStatus)
    (updatedAt approvedAt : Z) (r : Registration) : Registration :=
  mkRegistration (r_eventId r) (r_formConfigId r)
    (r_primaryParticipant r) (r_additionalParticipants r)
    (r_ticketSelections r) (r_totalAmount r)
    status
    (match paymentStatus with Some p => p | None => r_paymentStatus r end)
    (r_registrationDate r) (r_confirmationCode r)
    (if decide (status = confirmed) then Some approvedAt else r_approvedAt r)
    (r_createdAt r) updatedAt.

Definition updateRegistrationStatus (id : string) (status : Status)
    (paymentStatus : option PaymentStatus) : IO unit :=
  try_catch
    (let* updatedAt := Date_now in
     let* approvedAt := Date_now in
     updateDoc_registration id (updateData status paymentStatus updatedAt approvedAt))
    (λ _, throw "Failed to update registration status").

(** [!summary.ticketsSold[k]]: the entry is missing or is [0]. *)
Definition falsy (entry : option Z) : bool :=
  match entry with
  | None => true
  | Some v => v =? 0
  end.

(** One turn of the inner [forEach] over the ticket selections. *)
Definition sold_step (sold : gmap string Z) (selection : TicketSelection) : gmap string Z :=
  let k := sel_ticketTypeId selection in
  let sold0 := if falsy (sold !! k) then <[k := 0]> sold else sold in
  <[k := (sold0 !!! k) + sel_quantity selection]> sold0.

Definition sold_by_type (registrations : list (string * Registration)) : gmap string Z :=
  fold_left (λ sold r, fold_left sold_step (r_ticketSelections r.2) sold)
            registrations ∅.

(** [registrationDate.toISOString().split('T')[0]]: the UTC calendar day,
    kept as the number of the day since the epoch. *)
Definition dateKey (registrationDate : Z) : Z := registrationDate `div` 86400000.

Definition by_date_step (days : gmap Z Z) (r : string * Registration) : gmap Z Z :=
  let k := dateKey (r_registrationDate r.2) in
  let days0 := if falsy (days !! k) then <[k := 0]> days else days in
  <[k := (days0 !!! k) + 1]> days0.

Definition summarize (registrations : list (string * Registration)) : RegistrationSummary :=
  mkSummary
    (Z.of_nat (length registrations))
    (Z.of_nat (length (filter (λ r, r_status r.2 = confirmed) registrations)))
    (Z.of_nat (length (filter (λ r, r_status r.2 = pending) registrations)))
    (fold_left (λ sum r, sum + r_totalAmount r.2)
       (filter (λ r, r_paymentStatus r.2 = pay_completed) registrations) 0)
    (sold_by_type registrations)
    (fold_left by_date_step registrations ∅).

Definition getRegistrationSummary (eventId : string) : IO RegistrationSummary :=
  try_catch
    (let* registrations := getEventRegistrations eventId in
     ret (summarize registrations))
    (λ _, throw "Failed to get registration summary").

(** ** [ticketTypeService] *)

Definition updateTicketAvailability (ticketTypeId : string) (quantityChange : Z) : IO unit :=
  try_catch
    (let* docSnap := getDoc_ticketType ticketTypeId in
     match docSnap with
     | Some currentData =>
         let newAvailableQuantity := td_availableQuantity currentData + quantityChange in
         if newAvailableQuantity <? 0
         then throw "Insufficient ticket availability"
         else updateDoc_ticketType ticketTypeId newAvailableQuantity
     | None => throw "Ticket type not found"
     end)
    (λ error, throw error).

(** ** [generateConfirmationCode] *)

Definition chars : string := "ABCDEFGHIJKLMNOPQRSTUVWXYZ0123456789".

Definition charAt (s : string) (i : nat) : string :=
  match String.get i s with
  | Some c => String c ""
  | None => ""
  end.

(** [Math.floor(Math.random() * n)] *)
Definition random_below (n : nat) : IO nat :=
  let* r := next_random in ret (r `mod` n)%nat.

Fixpoint code_loop (remaining : nat) (result : string) : IO string :=
  match remaining with
  | O => ret result
  | S remaining' =>
      let* i := random_below (String.length chars) in
      code_loop remaining' (result +:+ charAt chars i)
  end.

Definition generateConfirmationCode : IO string := code_loop 8 "".

(** ** [useRegistration]: the submission mutation *)

(** What the hook holds when [mutationFn] runs: the results of its queries
    ([None] while a query has no data) and the files uploaded so far. *)
Record HookState := mkHookState {
  hk_eventId : string;
  hk_formConfig : option RegistrationFormConfig;
  hk_ticketTypes : option (list TicketType);
  hk_uploadedFiles : gmap string (list UploadedFile)
}.

(** [ticketTypes?.find(t => t.id === id)] *)
Definition find_ticketType (ticketTypes : option (list TicketType)) (id : string)
    : option TicketType :=
  match ticketTypes with
  | None => None
  | Some l => List.find (λ t, bool_decide (tt_id t = id)) l
  end.

(** The loop under "Validate ticket availability"; it issues no request. *)
Fixpoint validateAvailability (ticketTypes : option (list TicketType))
    (selections : list TicketSelection) : Result unit :=
  match selections with
  | [] => Ok tt
  | selection :: rest =>
      match find_ticketType ticketTypes (sel_ticketTypeId selection) with
      | None => Throw ("Ticket type not found: " +:+ sel_ticketTypeId selection)
      | Some ticketType =>
          if tt_availableQuantity ticketType <? sel_quantity selection
          then Throw ("Insufficient tickets available for " +:+ tt_name ticketType)
          else validateAvailability ticketTypes rest
      end
  end.

(** The [reduce] under "Calculate total amount". *)
Definition calculateTotal (ticketTypes : option (list TicketType))
    (selections : list TicketSelection) : Z :=
  fold_left
    (λ sum selection,
       sum + match find_ticketType ticketTypes (sel_ticketTypeId selection) with
             | Some ticketType => tt_price ticketType * sel_quantity selection
             | None => 0
             end)
    selections 0.

(** [uploadedFiles[key] || []] *)
Definition files_at (uploadedFiles : gmap string (list UploadedFile)) (key : string)
    : list UploadedFile :=
  default [] (uploadedFiles !! key).

(** [additionalParticipants.map((participant, index) => ...)], from [index]. *)
Fixpoint additional_from (uploadedFiles : gmap string (list UploadedFile))
    (index : nat) (participants : list ParticipantInput) : IO (list Participant) :=
  match participants with
  | [] => ret []
  | participant :: rest =>
      let* id := randomUUID in
      let* others := additional_from uploadedFiles (S index) rest in
      ret (mkParticipant id participant
             (files_at uploadedFiles ("additional_" +:+ pretty index)) :: others)
  end.

(** The loop under "Update ticket availability". *)
Definition reserve_each (selections : list TicketSelection) : IO unit :=
  for_of selections
    (λ selection,
       updateTicketAvailability (sel_ticketTypeId selection)
                                (- sel_quantity selection)).

Record SubmitResult := mkSubmitResult {
  registrationId : string;
  confirmationCode : string
}.

Definition submitRegistration (hook : HookState) (formData : RegistrationFormData)
    : IO SubmitResult :=
  match hk_formConfig hook with
  | None => throw "Registration form configuration not found"
  | Some formConfig =>
      let ticketTypes := hk_ticketTypes hook in
      let uploadedFiles := hk_uploadedFiles hook in
      settle (validateAvailability ticketTypes (fd_ticketSelections formData)) >>
      let totalAmount := calculateTotal ticketTypes (fd_ticketSelections formData) in
      let* primaryId := randomUUID in
      let* additional :=
        additional_from uploadedFiles 0 (fd_additionalParticipants formData) in
      let* registrationDate := Date_now in
      let* code := generateConfirmationCode in
      let registrationData :=
        mkRegistrationData (hk_eventId hook) (fc_id formConfig)
          (mkParticipant primaryId (fd_primaryParticipant formData)
             (files_at uploadedFiles "primary"))
          additional
          (fd_ticketSelections formData)
          totalAmount
          (if fc_requiresApproval formConfig then pending else confirmed)
          (if totalAmount =? 0 then pay_completed else pay_pending)
          registrationDate
          code in
      let* registrationId := createRegistration registrationData in
      reserve_each (fd_ticketSelections formData) >>
      ret (mkSubmitResult registrationId (rd_confirmationCode registrationData))
  end.

(** ** [createCustomFieldValidation] ([lib/validations/registration.ts]) *)

(** A zod schema is kept as what [parse] does with it: the list of issue
    messages for a value, empty when the value is accepted. *)
Definition Validator : Type := JsValue → list string.

Definition accepts (validation : Validator) (value : JsValue) : bool :=
  bool_decide (validation value = []).

Definition typeOf (value : JsValue) : string :=
  match value with
  | JsUndefined => "undefined"
  | JsNull => "null"
  | JsBool _ => "boolean"
  | JsNumber _ => "number"
  | JsString _ => "string"
  | JsObject => "object"
  end.

Definition invalid_type (expected : string) (value : JsValue) : list string :=
  match value with
  | JsUndefined => ["Required"]
  | _ => ["Expected " +:+ expected +:+ ", received " +:+ typeOf value]
  end.

(** A check chained on [z.string()]: what it requires and what it reports. *)
Record StringCheck := mkStringCheck {
  check_holds : string → bool;
  check_message : string
}.

(** [z.string()] with its chained checks, oldest first. *)
Definition ZodString : Type := list StringCheck.

Definition z_string : ZodString := [].

(** The length of a string counts its code units. *)
Definition js_length (s : string) : Z := Z.of_nat (String.length s).

Definition z_min (n : Z) (message : string) (schema : ZodString) : ZodString :=
  schema ++ [mkStringCheck (λ s, negb (js_length s <? n)) message].

Definition z_max (n : Z) (message : string) (schema : ZodString) : ZodString :=
  schema ++ [mkStringCheck (λ s, negb (n <? js_length s)) message].

Definition z_regex (test : string → bool) (message : string) (schema : ZodString)
    : ZodString :=
  schema ++ [mkStringCheck test message].

Definition z_refine_string (holds : string → bool) (message : string)
    (schema : ZodString) : ZodString :=
  schema ++ [mkStringCheck holds message].

(** Every failing check reports; a value that is not a string reports its
    type and the checks do not run. *)
Definition parse_string (schema : ZodString) : Validator :=
  λ value,
    match value with
    | JsString s =>
        omap (λ c, if check_holds c s then None else Some (check_message c)) schema
    | _ => invalid_type "string" value
    end.

(** [schema.optional()] *)
Definition z_optional (validation : Validator) : Validator :=
  λ value,
    match value with
    | JsUndefined => []
    | _ => validation value
    end.

(** [z.enum(options)] *)
Definition z_enum (options : list string) : Validator :=
  λ value,
    match value with
    | JsString s =>
        if bool_decide (s ∈ options) then [] else ["Invalid enum value"]
    | _ => invalid_type "enum" value
    end.

(** [z.boolean()] and [z.boolean().refine(holds, message)] *)
Definition z_boolean : Validator :=
  λ value,
    match value with
    | JsBool _ => []
    | _ => invalid_type "boolean" value
    end.

Definition z_boolean_refine (holds : bool → bool) (message : string) : Validator :=
  λ value,
    match value with
    | JsBool b => if holds b then [] else [message]
    | _ => invalid_type "boolean" value
    end.

(** [z.any()] and [z.any().refine(holds, message)] *)
Definition z_any : Validator := λ _, [].

Definition z_any_refine (holds : JsValue → bool) (message : string) : Validator :=
  λ value, if holds value then [] else [message].

(** [/^[\+]?[1-9][\d]{0,15}$/.test(s)] *)
Definition is_digit (c : Ascii.ascii) : bool :=
  (48 <=? Ascii.nat_of_ascii c)%nat && (Ascii.nat_of_ascii c <=? 57)%nat.

Definition is_nonzero_digit (c : Ascii.ascii) : bool :=
  (49 <=? Ascii.nat_of_ascii c)%nat && (Ascii.nat_of_ascii c <=? 57)%nat.

Definition phone_digits (s : string) : bool :=
  match s with
  | String c rest =>
      is_nonzero_digit c
      && (String.length rest <=? 15)%nat
      && forallb is_digit (String.list_ascii_of_string rest)
  | EmptyString => false
  end.

Definition phone_test (s : string) : bool :=
  match s with
  | String c rest =>
      if bool_decide (c = Ascii.ascii_of_nat 43) then phone_digits rest
      else phone_digits s
  | EmptyString => phone_digits s
  end.

(** A number or string used as a condition: [undefined], [0] and [''] do
    not pass. *)
Definition truthy_number (n : option Z) : option Z :=
  match n with
  | Some v => if v =? 0 then None else Some v
  | None => None
  end.

Definition truthy_string (s : option string) : option string :=
  match s with
  | Some v => if bool_decide (v = "") then None else Some v
  | None => None
  end.

Section Validation.

(** [new RegExp(pattern)]: [None] when the constructor throws, otherwise
    the compiled expression's [test]. *)
Variable RegExp : string → option (string → bool).
(** The test behind [z.string().email()]. *)
Variable email_test : string → bool.
(** [Date.parse]: [None] when the result is [NaN]. *)
Variable Date_parse : string → option Z.

(** [field.validation?.minLength] and its neighbours. *)
Definition declared {A} (get : FieldValidation → option A) (field : CustomField)
    : option A :=
  match cf_validation field with
  | Some v => get v
  | None => None
  end.

(** The [case 'text': case 'textarea':] branch up to its [return]. *)
Definition textValidation (field : CustomField) : Result ZodString :=
  let s0 := z_string in
  let s1 :=
    match truthy_number (declared fv_minLength field) with
    | Some n => z_min n ("Minimum " +:+ pretty n +:+ " characters required") s0
    | None => s0
    end in
  let s2 :=
    match truthy_number (declared fv_maxLength field) with
    | Some n => z_max n ("Maximum " +:+ pretty n +:+ " characters allowed") s1
    | None => s1
    end in
  match truthy_string (declared fv_pattern field) with
  | Some pattern =>
      match RegExp pattern with
      | Some test => Ok (z_regex test "Invalid format" s2)
      | None => Throw "SyntaxError: Invalid regular expression"
      end
  | None => Ok s2
  end.

Definition required_or_optional (field : CustomField) (validation : Validator)
    : Validator :=
  if cf_required field then validation else z_optional validation.

Definition createCustomFieldValidation (field : CustomField) : Result Validator :=
  match cf_type field with
  | ft_text | ft_textarea =>
      match textValidation field with
      | Ok schema => Ok (required_or_optional field (parse_string schema))
      | Throw e => Throw e
      end
  | ft_email =>
      let emailValidation := z_regex email_test "Invalid email address" z_string in
      Ok (required_or_optional field (parse_string emailValidation))
  | ft_phone =>
      let phoneValidation := z_regex phone_test "Invalid phone number" z_string in
      Ok (required_or_optional field (parse_string phoneValidation))
  | ft_select =>
      match cf_options field with
      | Some (o :: os) => Ok (required_or_optional field (z_enum (o :: os)))
      | _ => Ok (required_or_optional field (parse_string z_string))
      end
  | ft_checkbox =>
      if cf_required field
      then Ok (z_boolean_refine (λ val, val) (cf_label field +:+ " is required"))
      else Ok (z_optional z_boolean)
  | ft_date =>
      let dateValidation :=
        z_refine_string (λ val, bool_decide (is_Some (Date_parse val)))
                        "Invalid date" z_string in
      Ok (required_or_optional field (parse_string dateValidation))
  | ft_file =>
      if cf_required field
      then Ok (z_any_refine
                 (λ val, match val with
                         | JsUndefined | JsNull => false
                         | _ => true
                         end)
                 (cf_label field +:+ " is required"))
      else Ok (z_optional z_any)
  end.

End Validation.

(** ** Calls of [updateTicketAvailability] in flight together

    The function suspends at its two [await]s: once the [getDoc] request is
    out, and once the [updateDoc] request is out.  Each request is served by
    the store in one piece; between the two, other calls may be served. *)

Inductive Stage :=
| AwaitingGetDoc
| AwaitingUpdateDoc (newAvailableQuantity : Z)
| Settled (outcome : Result unit).

Record Call := mkCall {
  call_ticketTypeId : string;
  call_quantityChange : Z;
  call_stage : Stage
}.

Definition invoke (ticketTypeId : string) (quantityChange : Z) : Call :=
  mkCall ticketTypeId quantityChange AwaitingGetDoc.

Definition at_stage (c : Call) (s : Stage) : Call :=
  mkCall (call_ticketTypeId c) (call_quantityChange c) s.

(** Serve the request a call is waiting on and run the call up to its next
    [await] (or to its end). *)
Definition advance (c : Call) (w : World) : Call * World :=
  match call_stage c with
  | AwaitingGetDoc =>
      match getDoc_ticketType (call_ticketTypeId c) w with
      | (Ok (Some currentData), w') =>
          let newAvailableQuantity :=
            td_availableQuantity currentData + call_quantityChange c in
          if newAvailableQuantity <? 0
          then (at_stage c (Settled (Throw "Insufficient ticket availability")), w')
          else (at_stage c (AwaitingUpdateDoc newAvailableQuantity), w')
      | (Ok None, w') => (at_stage c (Settled (Throw "Ticket type not found")), w')
      | (Throw error, w') => (at_stage c (Settled (Throw error)), w')
      end
  | AwaitingUpdateDoc newAvailableQuantity =>
      match updateDoc_ticketType (call_ticketTypeId c) newAvailableQuantity w with
      | (outcome, w') => (at_stage c (Settled outcome), w')
      end
  | Settled _ => (c, w)
  end.

(** The store serves the pending request of call number [i]. *)
Definition serve (i : nat) (state : list Call * World) : list Call * World :=
  match state.1 !! i with
  | Some c =>
      let '(c', w') := advance c state.2 in
      (<[i := c']> state.1, w')
  | None => state
  end.

(** A schedule names, request by request, the call that is served next. *)
Definition interleave (schedule : list nat) (state : list Call * World)
    : list Call * World :=
  fold_left (λ st i, serve i st) schedule state.

(** The schedule in which the calls do not overlap: both requests of call 0,
    then both of call 1, and so on. *)
Definition one_by_one (first count : nat) : list nat :=
  flat_map (λ i, [i; i]) (seq first count).

Definition succeeded (c : Call) : bool :=
  match call_stage c with
  | Settled (Ok _) => true
  | _ => false
  end.

(** The total quantity handed out on ticket type [t]: the sum of
    [- quantityChange] over the calls on [t] that reported success. *)
Definition granted (t : string) (calls : list Call) : Z :=
  foldr (λ c total,
           if succeeded c && bool_decide (call_ticketTypeId c = t)
           then - call_quantityChange c + total else total)
        0 calls.

(** ** Invariants and reference sums used in the statements *)

Definition available (w : World) (t : string) : option Z :=
  td_availableQuantity <$> col_ticketTypes w !! t.

Definition never_negative (w : World) : Prop :=
  map_Forall (λ _ d, 0 ≤ td_availableQuantity d) (col_ticketTypes w).

Definition within_capacity (w : World) : Prop :=
  map_Forall (λ _ d, 0 ≤ td_availableQuantity d ≤ td_maxQuantity d)
             (col_ticketTypes w).

#[global] Instance never_negative_dec w : Decision (never_negative w).
Proof. unfold never_negative. apply _. Defined.
#[global] Instance within_capacity_dec w : Decision (within_capacity w).
Proof. unfold within_capacity. apply _. Defined.

Definition sumZ (l : list Z) : Z := foldr Z.add 0 l.

(** The quantity a list of selections asks of ticket type [t]. *)
Definition selected (t : string) (selections : list TicketSelection) : Z :=
  sumZ (sel_quantity <$> filter (λ s, sel_ticketTypeId s = t) selections).

(** The registrations of an event as the collection holds them. *)
Definition event_registrations (w : World) (eventId : string)
    : list (string * Registration) :=
  filter (λ d, r_eventId d.2 = eventId) (map_to_list (col_registrations w)).

(** Σ quantity over the selections on [t] of {e all} the given
    registrations, whatever their status. *)
Definition sold_all (t : string) (registrations : list (string * Registration)) : Z :=
  sumZ ((λ r, selected t (r_ticketSelections r.2)) <$> registrations).

(** The same sum over the registrations that are not cancelled. *)
Definition sold_not_cancelled (t : string) (registrations : list (string * Registration)) : Z :=
  sold_all t (filter (λ r, r_status r.2 ≠ cancelled) registrations).

(** Some selection of the list is on ticket type [t]. *)
Definition selects (t : string) (selections : list TicketSelection) : Prop :=
  Exists (λ s, sel_ticketTypeId s = t) selections.

(** Some selection of some of the registrations is on ticket type [t]. *)
Definition referenced (t : string) (registrations : list (string * Registration)) : Prop :=
  Exists (λ r, selects t (r_ticketSelections r.2)) registrations.

#[global] Instance selects_dec t selections : Decision (selects t selections).
Proof. unfold selects. apply _. Defined.
#[global] Instance referenced_dec t registrations : Decision (referenced t registrations).
Proof. unfold referenced. apply _. Defined.

(** A selection the availability check refuses: its ticket type is not in
    the loaded set, or the loaded set shows fewer tickets than it asks. *)
Definition offends (ticketTypes : option (list TicketType)) (s : TicketSelection) : Prop :=
  match find_ticketType ticketTypes (sel_ticketTypeId s) with
  | None => True
  | Some ticketType => tt_availableQuantity ticketType < sel_quantity s
  end.

#[global] Instance offends_dec ticketTypes s : Decision (offends ticketTypes s).
Proof. unfold offends. destruct (find_ticketType _ _); apply _. Defined.

(** The message the availability check reports for an offending selection. *)
Definition offence (ticketTypes : option (list TicketType)) (s : TicketSelection) : string :=
  match find_ticketType ticketTypes (sel_ticketTypeId s) with
  | None => "Ticket type not found: " +:+ sel_ticketTypeId s
  | Some ticketType => "Insufficient tickets available for " +:+ tt_name ticketType
  end.

(** Σ totalAmount over the registrations whose payment is completed. *)
Definition revenue (registrations : list (string * Registration)) : Z :=
  sumZ ((λ r, r_totalAmount r.2)
          <$> filter (λ r, r_paymentStatus r.2 = pay_completed) registrations).

(** The price of a selection's ticket type in the loaded set. *)
Definition loaded_price (ticketTypes : option (list TicketType)) (s : TicketSelection) : Z :=
  match find_ticketType ticketTypes (sel_ticketTypeId s) with
  | Some t => tt_price t
  | None => 0
  end.

(** The ticket type of the loaded set that a selection names, said without
    the lookup of the code: the loaded set is a list in which the ticket
    type occurs, it carries the ticketTypeId of the selection, and no ticket
    type before it does. *)
Definition priced_at (ticketTypes : option (list TicketType)) (s : TicketSelection)
    (t : TicketType) : Prop :=
  ∃ before after,
    ticketTypes = Some (before ++ t :: after)
    ∧ Forall (λ u, tt_id u ≠ sel_ticketTypeId s) before
    ∧ tt_id t = sel_ticketTypeId s.

(** Two ticket selections that differ at most in their price field. *)
Definition alike (s s' : TicketSelection) : Prop :=
  sel_ticketTypeId s = sel_ticketTypeId s' ∧ sel_quantity s = sel_quantity s'.

(** Two payloads that differ at most in the price fields of their ticket
    selections. *)
Definition same_but_prices (a b : RegistrationFormData) : Prop :=
  fd_primaryParticipant a = fd_primaryParticipant b
  ∧ fd_additionalParticipants a = fd_additionalParticipants b
  ∧ fd_agreeToTerms a = fd_agreeToTerms b
  ∧ fd_marketingOptIn a = fd_marketingOptIn b
  ∧ Forall2 alike (fd_ticketSelections a) (fd_ticketSelections b).

(** Two worlds in which requests on ticket types fare alike. *)
Definition same_inventory (w w' : World) : Prop :=
  col_ticketTypes w = col_ticketTypes w' ∧ outages w = outages w'.

(** Two runs of a submission that end alike: same outcome, same inventory,
    and on success the same totalAmount stored under the returned id. *)
Definition same_outcome (x y : Result SubmitResult * World) : Prop :=
  x.1 = y.1
  ∧ same_inventory x.2 y.2
  ∧ ∀ res, x.1 = Ok res →
      ∃ registration registration',
        col_registrations x.2 !! registrationId res = Some registration
        ∧ col_registrations y.2 !! registrationId res = Some registration'
        ∧ r_totalAmount registration' = r_totalAmount registration.

(** The allowed moves of the status state machine as the specification
    lists them. *)
Definition allowed_transition (from to : Status) : bool :=
  match from, to with
  | pending, (confirmed | cancelled | waitlisted) => true
  | waitlisted, (confirmed | cancelled) => true
  | confirmed, cancelled => true
  | _, _ => false
  end.

(** Two worlds holding the same documents. *)
Definition same_store (w w' : World) : Prop :=
  col_registrations w' = col_registrations w
  ∧ col_ticketTypes w' = col_ticketTypes w.

(** The requests on ticket types, and the ids of the documents written. *)
Definition on_ticketType (request : Served) : Prop :=
  match request with
  | Got_ticketType _ | Updated_ticketType _ _ => True
  | _ => False
  end.

Definition written_ticketTypes (requests : list Served) : list string :=
  omap (λ request, match request with
                   | Updated_ticketType id _ => Some id
                   | _ => None
                   end) requests.

(** No call in flight is about to write a negative quantity. *)
Definition harmless (c : Call) : Prop :=
  match call_stage c with
  | AwaitingUpdateDoc q => 0 ≤ q
  | _ => True
  end.

Definition writes_nonnegative (calls : list Call) : Prop := Forall harmless calls.

(** Calls that have just been made. *)
Definition just_invoked (calls : list Call) : Prop :=
  Forall (λ c, call_stage c = AwaitingGetDoc) calls.

(** ** Concrete situations used below *)

Module Scenario.

Definition quiet (registrations : gmap string Registration)
    (ticketTypes : gmap string TicketTypeData) : World :=
  mkWorld registrations ticketTypes [] 1700000000000 (λ n, n) 0 [].

Definition alice : ParticipantInput :=
  mkParticipantInput "Alice" "Martin" "alice@example.com" None ∅.

Definition form (requiresApproval : bool) : RegistrationFormConfig :=
  mkFormConfig "form-1" "event-1" "Registration" [] false None requiresApproval true.

Definition payload (selections : list TicketSelection) : RegistrationFormData :=
  mkFormData alice [] selections true None.

(** Scenario A of the specification: two tickets left, two calls for two. *)
Definition last_two : World :=
  quiet ∅ {[ "t1" := mkTicketTypeData "General Admission" 50 2 2 true ]}.
Definition two_buyers : list Call := [invoke "t1" (-2); invoke "t1" (-2)].
Definition reads_then_writes : list nat := [0; 1; 0; 1]%nat.

(** One ticket type with four tickets left out of ten, loaded as it is. *)
Definition four_left : World :=
  quiet ∅ {[ "t1" := mkTicketTypeData "General Admission" 50 10 4 true ]}.
Definition hook_four_left : HookState :=
  mkHookState "event-1" (Some (form false))
    (Some [mkTicketType "t1" "General Admission" 50 10 4 true]) ∅.
(** The same ticket type selected twice, three tickets each time. *)
Definition twice_three : RegistrationFormData :=
  payload [mkSelection "t1" 3 50; mkSelection "t1" 3 50].
Definition two_tickets : RegistrationFormData := payload [mkSelection "t1" 2 50].
Definition two_tickets_cheap : RegistrationFormData := payload [mkSelection "t1" 2 1].
Definition unknown_ticket : RegistrationFormData := payload [mkSelection "t9" 1 50].


(** A ticket type with all of its ten tickets available. *)
Definition full_house : World :=
  quiet ∅ {[ "t1" := mkTicketTypeData "General Admission" 50 10 10 true ]}.

Definition registration (status : Status) (paymentStatus : PaymentStatus)
    (selections : list TicketSelection) (totalAmount : Z) : Registration :=
  mkRegistration "event-1" "form-1" (mkParticipant "p-1" alice []) []
    selections totalAmount status paymentStatus
    1700000000000 "ABCD1234" None 1700000000000 1700000000000.

(** A store whose only registration is cancelled. *)
Definition one_cancelled : World :=
  quiet {[ "r1" := registration cancelled pay_completed [mkSelection "t1" 2 50] 100 ]} ∅.

Definition required_text : CustomField :=
  mkCustomField "field-1" "nickname" "Nickname" ft_text true None None None 1.

Definition no_hook_form : HookState :=
  mkHookState "event-1" None
    (Some [mkTicketType "t1" "General Admission" 50 10 4 true]) ∅.

End Scenario.

(** ** Further functions of the services and of the hook *)

(** [getDoc(doc(db, 'registrations', id))]; [None] when [exists()] is
    false.  The journal records additions, queries and the requests on
    ticket types; this read is not among them. *)
Definition getDoc_registration (id : string) : IO (option Registration) :=
  request (λ w, (Ok (col_registrations w !! id), w)).

(** [registrationService.getRegistration]: the document with its id, or
    [null]. *)
Definition getRegistration (id : string) : IO (option (string * Registration)) :=
  try_catch
    (let* docSnap := getDoc_registration id in
     match docSnap with
     | Some data => ret (Some (id, data))
     | None => ret None
     end)
    (λ _, throw "Failed to get registration").

(** [getAvailableTickets] of the hook: [ticketType?.availableQuantity || 0]. *)
Definition getAvailableTickets (hook : HookState) (ticketTypeId : string) : Z :=
  match find_ticketType (hk_ticketTypes hook) ticketTypeId with
  | Some ticketType =>
      if tt_availableQuantity ticketType =? 0 then 0
      else tt_availableQuantity ticketType
  | None => 0
  end.

(** [onSuccess] of the file upload mutation:
    [{...prev, [fieldId]: [...(prev[fieldId] || []), uploadedFile]}]. *)
Definition uploaded (fieldId : string) (uploadedFile : UploadedFile)
    (prev : gmap string (list UploadedFile)) : gmap string (list UploadedFile) :=
  <[fieldId := files_at prev fieldId ++ [uploadedFile]]> prev.

(** [array.filter((_, index) => index !== fileIndex)], the elements being
    numbered from [index]; [fileIndex] is any integer. *)
Fixpoint without_index_from {A} (index fileIndex : Z) (l : list A) : list A :=
  match l with
  | [] => []
  | x :: rest =>
      if bool_decide (index ≠ fileIndex)
      then x :: without_index_from (index + 1) fileIndex rest
      else without_index_from (index + 1) fileIndex rest
  end.

Definition without_index {A} (fileIndex : Z) (l : list A) : list A :=
  without_index_from 0 fileIndex l.

(** [removeUploadedFile]:
    [{...prev, [fieldId]: prev[fieldId]?.filter(...) || []}]. *)
Definition removeUploadedFile (fieldId : string) (fileIndex : Z)
    (prev : gmap string (list UploadedFile)) : gmap string (list UploadedFile) :=
  <[fieldId := match prev !! fieldId with
               | Some files => without_index fileIndex files
               | None => []
               end]> prev.

(** The keys under which [RegistrationForm] uploads and removes files:
    [`primary_${field.id}`] and [`additional_${index}_${field.id}`]. *)
Definition primary_upload_key (fieldId : string) : string := "primary_" +:+ fieldId.
Definition additional_upload_key (index : nat) (fieldId : string) : string :=
  "additional_" +:+ pretty index +:+ "_" +:+ fieldId.

(** What the state [uploadedFiles] of the hook can hold when only
    [RegistrationForm] uploads and removes files: it starts as [{}]. *)
Definition form_key (key : string) : Prop :=
  (∃ fieldId, key = primary_upload_key fieldId)
  ∨ (∃ index fieldId, key = additional_upload_key index fieldId).

Inductive form_uploads : gmap string (list UploadedFile) → Prop :=
| form_uploads_initial : form_uploads ∅
| form_uploads_uploaded key uploadedFile prev :
    form_key key → form_uploads prev → form_uploads (uploaded key uploadedFile prev)
| form_uploads_removed key fileIndex prev :
    form_key key → form_uploads prev →
    form_uploads (removeUploadedFile key fileIndex prev).

Definition with_uploadedFiles (uploadedFiles : gmap string (list UploadedFile))
    (hook : HookState) : HookState :=
  mkHookState (hk_eventId hook) (hk_formConfig hook) (hk_ticketTypes hook) uploadedFiles.



(** The registrations of the summary's input that have a given status, and
    those registered on a given day. *)
Definition with_status (status : Status) (registrations : list (string * Registration))
    : list (string * Registration) :=
  filter (λ r, r_status r.2 = status) registrations.

Definition on_day (day : Z) (registrations : list (string * Registration))
    : list (string * Registration) :=
  filter (λ r, dateKey (r_registrationDate r.2) = day) registrations.

(** The sum of the entries of a table of counts. *)
Definition table_total {K} `{Countable K} (table : gmap K Z) : Z :=
  map_fold (λ _ v total, v + total) 0 table.

(** Every character of the string is one of the alphabet's. *)
Definition drawn_from (alphabet : string) (s : string) : Prop :=
  Forall (λ c, c ∈ String.list_ascii_of_string alphabet) (String.list_ascii_of_string s).


(** ** Event utilities ([lib/utils/dataUtils.ts]) *)

(** A [Date]: its time value in milliseconds, [None] for an invalid date. *)
Definition JsDate : Type := option Z.

Definition isValid (date : JsDate) : bool := bool_decide (is_Some date).

(** [a < b], [a <= b] and [a >= b] on dates compare the time values, and
    are false as soon as one of them is [NaN]. *)
Definition date_lt (a b : JsDate) : bool :=
  match a, b with
  | Some x, Some y => x <? y
  | _, _ => false
  end.

Definition date_le (a b : JsDate) : bool :=
  match a, b with
  | Some x, Some y => x <=? y
  | _, _ => false
  end.

Definition date_ge (a b : JsDate) : bool := date_le b a.

(** The fields of [Event] these utilities read. *)
Record Event := mkEvent {
  ev_id : string;
  ev_title : string;
  ev_startDate : JsDate;
  ev_endDate : JsDate;
  ev_organizerEmail : string;
  ev_isPrivate : bool
}.

Inductive EventStatus := upcoming | ongoing | past.

#[global] Instance EventStatus_eq_dec : EqDecision EventStatus.
Proof. solve_decision. Defined.

(** [getEventStatus], [now] being what [new Date()] gives. *)
Definition getEventStatus (now : Z) (event : Event) : EventStatus :=
  let startDate := ev_startDate event in
  let endDate := ev_endDate event in
  if date_lt (Some now) startDate then upcoming
  else if date_ge (Some now) startDate && date_le (Some now) endDate then ongoing
  else past.

Definition isEventUpcoming (now : Z) (event : Event) : bool :=
  bool_decide (getEventStatus now event = upcoming).

Definition isEventOngoing (now : Z) (event : Event) : bool :=
  bool_decide (getEventStatus now event = ongoing).

Definition isEventPast (now : Z) (event : Event) : bool :=
  bool_decide (getEventStatus now event = past).

(** [n !== 1 ? 's' : ''] *)
Definition plural (n : Z) : string := if n =? 1 then "" else "s".

(** [getEventDuration]: [Math.floor] of a quotient by a positive number is
    [Z.div], and [%] has the sign of the dividend, as [Z.rem]. *)
Definition getEventDuration (event : Event) : string :=
  match ev_startDate event, ev_endDate event with
  | Some startDate, Some endDate =>
      let durationMs := endDate - startDate in
      let hours := durationMs / (1000 * 60 * 60) in
      let minutes := Z.rem durationMs (1000 * 60 * 60) / (1000 * 60) in
      if hours =? 0 then pretty minutes +:+ " minute" +:+ plural minutes
      else if minutes =? 0 then pretty hours +:+ " hour" +:+ plural hours
      else pretty hours +:+ "h " +:+ pretty minutes +:+ "m"
  | _, _ => "Invalid duration"
  end.

(** [getEventDurationInDays]: [Math.ceil(x / d)] is [- ((- x) / d)]. *)
Definition getEventDurationInDays (event : Event) : Z :=
  match ev_startDate event, ev_endDate event with
  | Some startDate, Some endDate =>
      let durationMs := endDate - startDate in
      - (- durationMs / (1000 * 60 * 60 * 24))
  | _, _ => 0
  end.

(** [validateEventDates]; [None] is [null]. *)
Definition validateEventDates (now : Z) (startDate endDate : JsDate) : option string :=
  if negb (isValid startDate) || negb (isValid endDate)
  then Some "Invalid date format"
  else if date_ge startDate endDate
  then Some "End date must be after start date"
  else if date_lt startDate (Some now)
  then Some "Start date cannot be in the past"
  else None.

(** [Array.prototype.sort(compare)]: the sort is stable, and [a] is moved
    behind [b] only when [compare(a, b) > 0].  When [compare] is a
    consistent ordering the result is the one of this insertion sort. *)
Fixpoint sort_insert {A} (behind : A → A → bool) (x : A) (l : list A) : list A :=
  match l with
  | [] => [x]
  | y :: rest =>
      if behind x y then y :: sort_insert behind x rest else x :: y :: rest
  end.

Definition Array_sort {A} (behind : A → A → bool) (l : list A) : list A :=
  foldr (sort_insert behind) [] l.

Inductive Direction := asc | desc.

(** [compare(a, b) > 0] for the comparator of [sortEventsByDate]; the
    difference of two time values is [NaN] when one of them is. *)
Definition later_start (direction : Direction) (a b : Event) : bool :=
  match ev_startDate a, ev_startDate b with
  | Some dateA, Some dateB =>
      match direction with
      | asc => 0 <? dateA - dateB
      | desc => 0 <? dateB - dateA
      end
  | _, _ => false
  end.

Definition sortEventsByDate (events : list Event) (direction : Direction) : list Event :=
  Array_sort (later_start direction) events.

(** [filterEventsByStatus]: [getEventStatus] reads [new Date()] every time
    it is called, so a pass over the events reads the clock once per event;
    [readings i] is the instant read for the event at index [i]. *)
Fixpoint filterEventsByStatus (readings : nat → Z) (events : list Event)
    (status : EventStatus) : list Event :=
  match events with
  | [] => []
  | event :: rest =>
      let kept := filterEventsByStatus (λ i, readings (S i)) rest status in
      if decide (getEventStatus (readings 0%nat) event = status)
      then event :: kept
      else kept
  end.

Definition filterEventsByOrganizer (events : list Event) (organizerEmail : string)
    : list Event :=
  filter (λ event, ev_organizerEmail event = organizerEmail) events.

Definition filterPublicEvents (events : list Event) : list Event :=
  filter (λ event, ev_isPrivate event = false) events.

Definition filterPrivateEvents (events : list Event) : list Event :=
  filter (λ event, ev_isPrivate event = true) events.

(** [generateEventSlug].  A string stands for its code units, all below
    256 here; [toLowerCase] moves [A-Z] and the capital letters of Latin-1
    by 32 and leaves the other code units. *)
Definition toLowerCase_char (c : Ascii.ascii) : Ascii.ascii :=
  let n := Ascii.nat_of_ascii c in
  if ((65 <=? n) && (n <=? 90)
      || (192 <=? n) && (n <=? 222) && negb (n =? 215))%nat
  then Ascii.ascii_of_nat (n + 32)
  else c.

(** [[a-z0-9]] *)
Definition is_slug_char (c : Ascii.ascii) : bool :=
  let n := Ascii.nat_of_ascii c in
  ((97 <=? n) && (n <=? 122) || (48 <=? n) && (n <=? 57))%nat.

Definition dash : Ascii.ascii := Ascii.ascii_of_nat 45.

(** [.replace(/[^a-z0-9]+/g, '-')]: every maximal run of other characters
    becomes one dash; [in_run] tells that the run has its dash already. *)
Fixpoint replace_runs (in_run : bool) (s : list Ascii.ascii) : list Ascii.ascii :=
  match s with
  | [] => []
  | c :: rest =>
      if is_slug_char c then c :: replace_runs false rest
      else if in_run then replace_runs true rest
      else dash :: replace_runs true rest
  end.

(** [.replace(/^-+|-+$/g, '')]: the dashes at the start, then those at the
    end. *)
Fixpoint strip_leading (s : list Ascii.ascii) : list Ascii.ascii :=
  match s with
  | [] => []
  | c :: rest => if bool_decide (c = dash) then strip_leading rest else s
  end.

Fixpoint strip_trailing (s : list Ascii.ascii) : list Ascii.ascii :=
  match s with
  | [] => []
  | c :: rest =>
      match strip_trailing rest with
      | [] => if bool_decide (c = dash) then [] else [c]
      | kept => c :: kept
      end
  end.

Definition slug_of (title : list Ascii.ascii) : list Ascii.ascii :=
  strip_trailing (strip_leading (replace_runs false (toLowerCase_char <$> title))).

Definition generateEventSlug (title : string) : string :=
  String.string_of_list_ascii (slug_of (String.list_ascii_of_string title)).

Definition generateEventUrl (event : Event) : string :=
  "/event/" +:+ ev_id event +:+ "/" +:+ generateEventSlug (ev_title event).

(** What a slug looks like: characters of [[a-z0-9-]], no dash at either
    end and no two dashes in a row. *)
Fixpoint single_dashes (s : list Ascii.ascii) : Prop :=
  match s with
  | c :: (d :: _) as rest => ¬ (c = dash ∧ d = dash) ∧ single_dashes rest
  | _ => True
  end.

Definition slug_shaped (s : list Ascii.ascii) : Prop :=
  Forall (λ c, is_slug_char c = true ∨ c = dash) s
  ∧ head s ≠ Some dash
  ∧ last s ≠ Some dash
  ∧ single_dashes s.

(** The events of a list in the order of their start dates. *)
Definition start_order (direction : Direction) (a b : Event) : Prop :=
  match ev_startDate a, ev_startDate b with
  | Some dateA, Some dateB =>
      match direction with
      | asc => dateA ≤ dateB
      | desc => dateB ≤ dateA
      end
  | _, _ => False
  end.

(** No event changes status while a pass over [events] runs: the event at
    index [i], examined at the instant [readings i], has the status it has
    at the instant [now]. *)
Definition steady (now : Z) (readings : nat → Z) (events : list Event) : Prop :=
  ∀ i event, events !! i = Some event →
             getEventStatus (readings i) event = getEventStatus now event.

(** The place of a status in the life of an event. *)
Definition status_rank (status : EventStatus) : Z :=
  match status with
  | upcoming => 0
  | ongoing => 1
  | past => 2
  end.

Module Gatherings.

Definition meetup : Event :=
  mkEvent "e1" "Rocq Meetup: Proofs & Pizza!" (Some 1700000000000) (Some 1700005400000)
    "org@example.com" false.

Definition workshop : Event :=
  mkEvent "e2" "Workshop" (Some 1690000000000) (Some 1690100000000)
    "org@example.com" true.

Definition gala : Event :=
  mkEvent "e3" "Gala" (Some 1700000000000) (Some 1700090000000)
    "team@example.com" false.

End Gatherings.

(** Case analysis on every comparison of two instants in sight. *)
Ltac compare_dates :=
  repeat match goal with
         | |- context [(?a <? ?b)] => destruct (Z.ltb_spec a b); simpl
         | |- context [(?a <=? ?b)] => destruct (Z.leb_spec a b); simpl
         | H : context [(?a <? ?b)] |- _ => destruct (Z.ltb_spec a b); simpl in H
         | H : context [(?a <=? ?b)] |- _ => destruct (Z.leb_spec a b); simpl in H
         end.

(** * Properties *)

(** ** Requests and what they leave in the store *)

Lemma same_store_refl w : same_store w w.
Proof. by split. Qed.

Lemma same_store_trans w1 w2 w3 :
  same_store w1 w2 → same_store w2 w3 → same_store w1 w3.
Proof. intros [??] [??]; split; congruence. Qed.

Lemma request_inv {A} (c : IO A) w r w' :
  request c w = (r, w') →
  (r = Throw "unavailable" ∧ same_store w w')
  ∨ (∃ w1, same_store w w1 ∧ c w1 = (r, w')).
Proof.
  unfold request, bind, rejected, throw.
  destruct (outages w) as [|[] later] eqn:E; intros H; simplify_eq/=.
  - right. exists w. split; [apply same_store_refl | done].
  - left. split; [done | by split].
  - right. eexists. split; [| done]. by split.
Qed.

Lemma getDoc_ticketType_inv id w r w' :
  getDoc_ticketType id w = (r, w') →
  same_store w w' ∧ (r = Ok (col_ticketTypes w !! id) ∨ ∃ e, r = Throw e).
Proof.
  intros H. apply request_inv in H as [[-> ?] | (w1 & Hs & H)]; [eauto |].
  simplify_eq. split; [done |]. left. by destruct Hs as [_ ->].
Qed.

Lemma updateDoc_ticketType_inv id q w r w' :
  updateDoc_ticketType id q w = (r, w') →
  col_registrations w' = col_registrations w
  ∧ ((r = Ok tt ∧ is_Some (col_ticketTypes w !! id)
      ∧ col_ticketTypes w' = alter (with_availableQuantity q) id (col_ticketTypes w))
     ∨ ((∃ e, r = Throw e) ∧ col_ticketTypes w' = col_ticketTypes w)).
Proof.
  intros H. apply request_inv in H as [[-> [??]] | (w1 & [Hr Ht] & H)]; [eauto |].
  rewrite <- Hr, <- Ht. clear Hr Ht.
  destruct (col_ticketTypes w1 !! id) eqn:E; simplify_eq/=; eauto 10.
Qed.

Lemma updateTicketAvailability_inv ticketTypeId quantityChange w r w' :
  updateTicketAvailability ticketTypeId quantityChange w = (r, w') →
  col_registrations w' = col_registrations w
  ∧ ((r = Ok tt
      ∧ ∃ d, col_ticketTypes w !! ticketTypeId = Some d
             ∧ 0 ≤ td_availableQuantity d + quantityChange
             ∧ col_ticketTypes w' =
                 alter (with_availableQuantity (td_availableQuantity d + quantityChange))
                       ticketTypeId (col_ticketTypes w))
     ∨ ((∃ e, r = Throw e) ∧ col_ticketTypes w' = col_ticketTypes w)).
Proof.
  unfold updateTicketAvailability, try_catch, bind, throw. intros H.
  destruct (getDoc_ticketType ticketTypeId w) as [r1 w1] eqn:E1.
  apply getDoc_ticketType_inv in E1 as [[Hr Ht] Hr1].
  destruct Hr1 as [-> | [e ->]]; [| simplify_eq; eauto 10].
  destruct (col_ticketTypes w !! ticketTypeId) as [d|] eqn:Ed; [| simplify_eq; eauto 10].
  destruct (td_availableQuantity d + quantityChange <? 0) eqn:Elt; [simplify_eq; eauto 10 |].
  apply Z.ltb_ge in Elt.
  destruct (updateDoc_ticketType _ _ w1) as [r2 w2] eqn:E2.
  apply updateDoc_ticketType_inv in E2 as [Hr2 Hc].
  rewrite Ht in Hc.
  destruct Hc as [(-> & _ & Hc) | [[e ->] Hc]]; simplify_eq.
  - split; [congruence |]. left. split; [done |]. exists d. by rewrite Hc.
  - split; [congruence |]. right. split; [eauto | congruence].
Qed.

(** Writing a quantity into one document: what every document looks like
    afterwards. *)
Lemma lookup_written q id (m : gmap string TicketTypeData) t d' :
  alter (with_availableQuantity q) id m !! t = Some d' →
  ∃ d, m !! t = Some d
       ∧ td_maxQuantity d' = td_maxQuantity d
       ∧ td_availableQuantity d' = (if decide (id = t) then q else td_availableQuantity d).
Proof.
  rewrite lookup_alter. case_decide as E.
  - subst. destruct (m !! t) as [d|]; intros ?; simplify_eq/=. by exists d.
  - intros ?. by exists d'.
Qed.

(** ** Bounds kept by [updateTicketAvailability] *)

(** C4, as stated, fails: a release on a ticket type that is already at its
    maximum is neither clamped nor rejected.  With ten tickets out of ten
    available, [updateTicketAvailability('t1', 5)] succeeds and leaves
    fifteen available. *)
Lemma release_exceeds_maxQuantity :
  within_capacity Scenario.full_house
  ∧ (updateTicketAvailability "t1" 5 Scenario.full_house).1 = Ok tt
  ∧ col_ticketTypes (updateTicketAvailability "t1" 5 Scenario.full_house).2
    = {[ "t1" := mkTicketTypeData "General Admission" 50 10 15 true ]}
  ∧ ¬ within_capacity (updateTicketAvailability "t1" 5 Scenario.full_house).2.
Proof.
  split; [| split; [| split]].
  - compute_done.
  - reflexivity.
  - reflexivity.
  - intros H.
    specialize (H "t1" (mkTicketTypeData "General Admission" 50 10 15 true) eq_refl).
    simpl in H. lia.
Qed.

(** C4 (amended): after every call of [updateTicketAvailability], whatever
    the quantity change, [0 ≤ availableQuantity] still holds for every
    ticket type, and a change that would take the quantity below 0 is
    rejected and writes nothing; [availableQuantity ≤ maxQuantity] is kept
    by every call whose change is not positive (a reserve). *)
Theorem updateTicketAvailability_bounds ticketTypeId quantityChange w r w' :
  updateTicketAvailability ticketTypeId quantityChange w = (r, w') →
  (never_negative w → never_negative w')
  ∧ (quantityChange ≤ 0 → within_capacity w → within_capacity w')
  ∧ (∀ d, col_ticketTypes w !! ticketTypeId = Some d →
          td_availableQuantity d + quantityChange < 0 →
          (∃ e, r = Throw e) ∧ col_ticketTypes w' = col_ticketTypes w).
Proof.
  intros H. apply updateTicketAvailability_inv in H as [_ H].
  destruct H as [(-> & d & Hd & Hge & Hw) | [Hr Hw]].
  - split; [| split].
    + intros Hinv t d' Ht. rewrite Hw in Ht.
      apply lookup_written in Ht as (d0 & Hd0 & _ & Ha). rewrite Ha.
      case_decide; [lia | by eapply Hinv].
    + intros Hle Hinv t d' Ht. rewrite Hw in Ht.
      apply lookup_written in Ht as (d0 & Hd0 & Hm & Ha). rewrite Ha, Hm.
      case_decide; [| by eapply Hinv].
      subst. simplify_eq. specialize (Hinv _ _ Hd). simpl in Hinv. lia.
    + intros d0 Hd0 Hlt. simplify_eq. lia.
  - unfold never_negative, within_capacity. rewrite Hw. split; [done |]. split; [done |].
    intros _ _ _. by split.
Qed.

Lemma updateTicketAvailability_bounds_witness :
  let w := Scenario.four_left in
  let r := (updateTicketAvailability "t1" (-3) w).1 in
  let w' := (updateTicketAvailability "t1" (-3) w).2 in
  updateTicketAvailability "t1" (-3) w = (r, w')
  ∧ (never_negative w → never_negative w')
  ∧ (-3 ≤ 0 → within_capacity w → within_capacity w')
  ∧ (∀ d, col_ticketTypes w !! "t1" = Some d →
          td_availableQuantity d + -3 < 0 →
          (∃ e, r = Throw e) ∧ col_ticketTypes w' = col_ticketTypes w).
Proof.
  intros w r w'.
  assert (updateTicketAvailability "t1" (-3) w = (r, w')) as H by reflexivity.
  split; [exact H |].
  exact (updateTicketAvailability_bounds "t1" (-3) w r w' H).
Defined.

(** ** Calls in flight *)

Lemma advance_keeps c w c' w' :
  advance c w = (c', w') →
  never_negative w → harmless c →
  never_negative w' ∧ harmless c'.
Proof.
  unfold advance, harmless. intros H Hw Hc.
  destruct (call_stage c) as [| q | outcome] eqn:Es.
  - destruct (getDoc_ticketType _ w) as [r1 w1] eqn:E1.
    apply getDoc_ticketType_inv in E1 as [[_ Ht] Hr].
    assert (never_negative w1) as Hw1 by (unfold never_negative; by rewrite Ht).
    destruct Hr as [-> | [e ->]]; [| by simplify_eq].
    destruct (col_ticketTypes w !! _) as [d|]; [| by simplify_eq].
    destruct (_ <? 0) eqn:Elt; simplify_eq/=; [done |].
    apply Z.ltb_ge in Elt. auto.
  - destruct (updateDoc_ticketType _ _ w) as [r2 w2] eqn:E2. simplify_eq/=.
    split; [| done].
    apply updateDoc_ticketType_inv in E2 as [_ [(_ & _ & Hc2) | [_ Hc2]]];
      unfold never_negative; rewrite Hc2; [| done].
    intros t d' (d & Hd & _ & Ha)%lookup_written. rewrite Ha.
    case_decide; [done | by eapply Hw].
  - simplify_eq. by rewrite Es.
Qed.

Lemma serve_keeps i calls w calls' w' :
  serve i (calls, w) = (calls', w') →
  never_negative w → writes_nonnegative calls →
  never_negative w' ∧ writes_nonnegative calls'.
Proof.
  unfold serve. simpl. intros H Hw Hc.
  destruct (calls !! i) as [c|] eqn:Ei; [| by simplify_eq].
  destruct (advance c w) as [c1 w1] eqn:Ea. simplify_eq.
  apply advance_keeps in Ea as [? Hc1]; [| done |].
  - split; [done |]. by apply Forall_insert.
  - by eapply Forall_lookup_1 in Hc.
Qed.

Lemma interleave_keeps schedule calls w :
  never_negative w → writes_nonnegative calls →
  never_negative (interleave schedule (calls, w)).2
  ∧ writes_nonnegative (interleave schedule (calls, w)).1.
Proof.
  revert calls w. induction schedule as [| i schedule IH]; intros calls w Hw Hc; [done |].
  simpl. destruct (serve i (calls, w)) as [calls1 w1] eqn:Es.
  apply serve_keeps in Es as [??]; [| done..]. by apply IH.
Qed.

Lemma just_invoked_writes calls : just_invoked calls → writes_nonnegative calls.
Proof. intros H. eapply Forall_impl; [exact H |]. unfold harmless. by intros c ->. Qed.

(** Served back to back, the two requests of a call do what the function
    does when nothing else runs in between. *)
Lemma advance_twice c w :
  call_stage c = AwaitingGetDoc →
  (let '(c1, w1) := advance c w in advance c1 w1) =
    (let '(r, w') := updateTicketAvailability (call_ticketTypeId c) (call_quantityChange c) w in
    (at_stage c (Settled r), w')).
Proof.
  intros Es. destruct (advance c w) as [c1 w1] eqn:Ea.
  unfold advance in Ea. rewrite Es in Ea.
  unfold updateTicketAvailability, try_catch, bind, throw.
  destruct (getDoc_ticketType _ w) as [[[d|]|e] w0]; simplify_eq; try done.
  destruct (_ <? 0); simplify_eq; [done |].
  unfold advance. simpl.
  by destruct (updateDoc_ticketType _ _ w1) as [[[]|?] ?].
Qed.

Lemma serve_next done c todo w :
  serve (length done) (done ++ c :: todo, w) =
    (let '(c', w') := advance c w in (done ++ c' :: todo, w')).
Proof.
  unfold serve. simpl. rewrite list_lookup_middle by done.
  destruct (advance c w) as [c' w']. f_equal.
  rewrite insert_app_r_alt by lia. by rewrite Nat.sub_diag.
Qed.

Lemma granted_app t l1 l2 : granted t (l1 ++ l2) = granted t l1 + granted t l2.
Proof.
  induction l1 as [| c l1 IH]; simpl; [done |].
  rewrite IH. case_match; lia.
Qed.

(** Calls that do not overlap: each is the function run on the store its
    predecessors left, and what they hand out on a ticket type is what its
    available quantity has dropped by. *)
Lemma one_by_one_run todo : ∀ done w,
  just_invoked todo →
  ∃ settled w',
    interleave (one_by_one (length done) (length todo)) (done ++ todo, w)
      = (done ++ settled, w')
    ∧ ∀ t d, col_ticketTypes w !! t = Some d →
        ∃ d', col_ticketTypes w' !! t = Some d'
              ∧ td_maxQuantity d' = td_maxQuantity d
              ∧ granted t settled = td_availableQuantity d - td_availableQuantity d'.
Proof.
  induction todo as [| c todo IH]; intros done w Hfresh.
  - exists [], w. split; [done |]. intros t d Hd. exists d. simpl. split; [done |]. lia.
  - apply Forall_cons in Hfresh as [Hc Hfresh].
    change (one_by_one (length done) (length (c :: todo)))
      with ([length done; length done] ++ one_by_one (S (length done)) (length todo)).
    unfold interleave. rewrite fold_left_app. simpl.
    rewrite serve_next. destruct (advance c w) as [c1 w1] eqn:Ea1.
    rewrite serve_next.
    pose proof (advance_twice c w Hc) as Htwice. rewrite Ea1 in Htwice.
    rewrite Htwice. clear Htwice Ea1 c1 w1.
    destruct (updateTicketAvailability _ _ w) as [r w1] eqn:Eu.
    specialize (IH (done ++ [at_stage c (Settled r)]) w1 Hfresh)
      as (settled & w' & Hrun & Hsum).
    rewrite length_app, Nat.add_1_r in Hrun. rewrite <- !app_assoc in Hrun. simpl in Hrun.
    exists (at_stage c (Settled r) :: settled), w'. split; [exact Hrun |].
    intros t d Hd.
    apply updateTicketAvailability_inv in Eu as [_ Hu].
    destruct Hu as [(-> & d0 & Hd0 & Hge & Hw1) | [[e ->] Hw1]].
    + destruct (decide (call_ticketTypeId c = t)) as [<- | Hne].
      * assert (d0 = d) as -> by congruence.
        destruct (Hsum (call_ticketTypeId c)
                    (with_availableQuantity (td_availableQuantity d + call_quantityChange c) d))
          as (d' & Hd' & Hm & Hg).
        { by rewrite Hw1, lookup_alter_eq, Hd. }
        exists d'. split; [done |]. split; [done |].
        simpl. rewrite bool_decide_eq_true_2 by done. simpl in *. lia.
      * destruct (Hsum t d) as (d' & Hd' & Hm & Hg).
        { by rewrite Hw1, lookup_alter_ne. }
        exists d'. split; [done |]. split; [done |].
        simpl. by rewrite bool_decide_eq_false_2.
    + destruct (Hsum t d) as (d' & Hd' & Hm & Hg); [by rewrite Hw1 |].
      by exists d'.
Qed.

(** C1: the calls of [updateTicketAvailability] are not atomic.  With two
    tickets left of a maximum of two, two calls for two tickets each whose
    reads are both served before either write both pass the guard
    [newAvailableQuantity < 0] and both report success: four tickets are
    handed out, more than the maximum of two, and each write stores 0. *)
Lemma two_buyers_both_succeed :
  (interleave Scenario.reads_then_writes (Scenario.two_buyers, Scenario.last_two)).1
  = [mkCall "t1" (-2) (Settled (Ok tt)); mkCall "t1" (-2) (Settled (Ok tt))]
  ∧ journal
      (interleave Scenario.reads_then_writes (Scenario.two_buyers, Scenario.last_two)).2
    = [Got_ticketType "t1"; Got_ticketType "t1";
       Updated_ticketType "t1" 0; Updated_ticketType "t1" 0]
  ∧ granted "t1"
      (interleave Scenario.reads_then_writes
         (Scenario.two_buyers, Scenario.last_two)).1 = 4
  ∧ ¬ granted "t1"
        (interleave Scenario.reads_then_writes
           (Scenario.two_buyers, Scenario.last_two)).1 ≤ 2.
Proof.
  split; [reflexivity |]. split; [reflexivity |]. split; [reflexivity |].
  change (¬ (4 ≤ 2)). lia.
Qed.

(** What the guard does achieve: for any set of calls of
    [updateTicketAvailability] on a store whose quantities are not negative,
    [availableQuantity] never goes negative, however the reads and writes
    of the calls are interleaved; and when the calls do not overlap (each
    call's read and write are served back to back), the quantities of the
    calls that report success on a ticket type sum to at most its
    [maxQuantity]. *)
Theorem reserve_calls_in_flight (requests : list (string * Z)) schedule w t d :
  never_negative w →
  col_ticketTypes w !! t = Some d →
  td_availableQuantity d ≤ td_maxQuantity d →
  let calls := (λ rq, invoke rq.1 rq.2) <$> requests in
  never_negative (interleave schedule (calls, w)).2
  ∧ granted t (interleave (one_by_one 0 (length calls)) (calls, w)).1
    ≤ td_maxQuantity d.
Proof.
  intros Hw Hd Hmax calls.
  assert (just_invoked calls) as Hfresh.
  { unfold just_invoked, calls. apply Forall_fmap, Forall_true. done. }
  split.
  - apply interleave_keeps; [done | by apply just_invoked_writes].
  - destruct (interleave_keeps (one_by_one 0 (length calls)) calls w Hw
                (just_invoked_writes _ Hfresh)) as [Hw' _].
    destruct (one_by_one_run calls [] w Hfresh) as (settled & w' & Hrun & Hsum).
    simpl in Hrun. rewrite Hrun in Hw' |- *. simpl in *.
    destruct (Hsum t d Hd) as (d' & Hd' & _ & Hg).
    specialize (Hw' _ _ Hd'). simpl in Hw'. lia.
Qed.

Lemma reserve_calls_in_flight_witness :
  let w := Scenario.last_two in
  let d := mkTicketTypeData "General Admission" 50 2 2 true in
  let calls := (λ rq, invoke rq.1 rq.2) <$> [("t1", -2); ("t1", -2)] in
  never_negative w
  ∧ col_ticketTypes w !! "t1" = Some d
  ∧ td_availableQuantity d ≤ td_maxQuantity d
  ∧ never_negative (interleave Scenario.reads_then_writes (calls, w)).2
  ∧ granted "t1" (interleave (one_by_one 0 (length calls)) (calls, w)).1
    ≤ td_maxQuantity d.
Proof.
  intros w d calls.
  assert (never_negative w) as Hw by compute_done.
  assert (col_ticketTypes w !! "t1" = Some d) as Hd by reflexivity.
  assert (td_availableQuantity d ≤ td_maxQuantity d) as Hmax by (simpl; lia).
  split; [exact Hw |]. split; [exact Hd |]. split; [exact Hmax |].
  exact (reserve_calls_in_flight [("t1", -2); ("t1", -2)]
           Scenario.reads_then_writes w "t1" d Hw Hd Hmax).
Defined.
(** ** The journal of a submission *)

Lemma updateTicketAvailability_journal ticketTypeId quantityChange w r w' :
  updateTicketAvailability ticketTypeId quantityChange w = (r, w') →
  ∃ trace, journal w' = journal w ++ trace
           ∧ Forall on_ticketType trace
           ∧ written_ticketTypes trace
             = match r with Ok _ => [ticketTypeId] | Throw _ => [] end.
Proof.
  unfold updateTicketAvailability, try_catch, bind, throw, getDoc_ticketType,
    updateDoc_ticketType, request, rejected, bind, throw.
  intros H.
  destruct (outages w) as [| [] [| [] later]] eqn:Eo; simpl in H;
    try rewrite Eo in H; simpl in H;
    repeat (case_match; simplify_eq/=);
    try (exists []; rewrite app_nil_r; by repeat split);
    try (eexists [_]; by repeat (split; [try done; repeat constructor |]));
    try (eexists [_; _]; rewrite <- app_assoc; by repeat (split; [try done; repeat constructor |])).
Qed.

Lemma set_cursor_twice n m w : set_cursor n (set_cursor m w) = set_cursor n w.
Proof. reflexivity. Qed.

Lemma set_cursor_same w : set_cursor (cursor w) w = w.
Proof. by destruct w. Qed.

Lemma randomUUID_run w :
  ∃ id, randomUUID w = (Ok id, set_cursor (S (cursor w)) w).
Proof. by eexists. Qed.

Lemma additional_from_run uploadedFiles participants : ∀ index w,
  ∃ l, additional_from uploadedFiles index participants w
       = (Ok l, set_cursor (length participants + cursor w) w).
Proof.
  induction participants as [| p rest IH]; intros index w.
  - exists []. simpl. unfold ret. by rewrite set_cursor_same.
  - cbn [additional_from]. unfold bind at 1.
    destruct (randomUUID_run w) as [id ->].
    unfold bind at 1.
    destruct (IH (S index) (set_cursor (S (cursor w)) w)) as [l ->].
    eexists. unfold ret. rewrite set_cursor_twice. f_equal.
    replace (length rest + cursor (set_cursor (S (cursor w)) w))%nat
      with (length (p :: rest) + cursor w)%nat by (simpl; lia).
    reflexivity.
Qed.

Lemma code_loop_run remaining : ∀ result w,
  ∃ code, code_loop remaining result w
          = (Ok code, set_cursor (remaining + cursor w) w).
Proof.
  induction remaining as [| n IH]; intros result w.
  - exists result. simpl. unfold ret. by rewrite set_cursor_same.
  - cbn [code_loop]. unfold bind at 1, random_below, bind, next_random, ret.
    edestruct IH as [code ->]. exists code. rewrite set_cursor_twice. f_equal.
    replace (n + cursor (set_cursor (S (cursor w)) w))%nat
      with (S n + cursor w)%nat by (simpl; lia).
    reflexivity.
Qed.

Lemma createRegistration_inv registrationData w r w' :
  createRegistration registrationData w = (r, w') →
  (r = Throw "Failed to create registration"
   ∧ same_store w w' ∧ journal w' = journal w)
  ∨ (∃ id, r = Ok id
           ∧ col_registrations w !! id = None
           ∧ col_registrations w'
             = <[id := stored registrationData (clock w)]> (col_registrations w)
           ∧ col_ticketTypes w' = col_ticketTypes w
           ∧ journal w' = journal w ++ [Added_registration id]).
Proof.
  unfold createRegistration, try_catch, bind, Date_now, addDoc_registration,
    request, rejected, bind, throw.
  intros H. destruct (outages w) as [| [] later] eqn:Eo; simplify_eq/=.
  - right. eexists. split; [done |]. split; [| done].
    apply not_elem_of_dom, is_fresh.
  - left. by repeat split.
  - right. eexists. split; [done |]. split; [| done].
    apply not_elem_of_dom, is_fresh.
Qed.

(** What [submitRegistration] hands to [createRegistration]. *)
Lemma submitRegistration_run hook formConfig formData w :
  hk_formConfig hook = Some formConfig →
  validateAvailability (hk_ticketTypes hook) (fd_ticketSelections formData) = Ok tt →
  ∃ registrationData n,
    rd_eventId registrationData = hk_eventId hook
    ∧ rd_ticketSelections registrationData = fd_ticketSelections formData
    ∧ rd_totalAmount registrationData
      = calculateTotal (hk_ticketTypes hook) (fd_ticketSelections formData)
    ∧ rd_status registrationData
      = (if fc_requiresApproval formConfig then pending else confirmed)
    ∧ rd_paymentStatus registrationData
      = (if rd_totalAmount registrationData =? 0 then pay_completed else pay_pending)
    ∧ submitRegistration hook formData w
      = (let* registrationId := createRegistration registrationData in
         reserve_each (fd_ticketSelections formData) >>
         ret (mkSubmitResult registrationId (rd_confirmationCode registrationData)))
          (set_cursor n w).
Proof.
  intros Hform Hvalid. unfold submitRegistration. rewrite Hform, Hvalid.
  unfold bind at 1. unfold settle.
  unfold bind at 1. destruct (randomUUID_run w) as [primaryId ->].
  unfold bind at 1.
  destruct (additional_from_run (hk_uploadedFiles hook)
              (fd_additionalParticipants formData) 0 (set_cursor (S (cursor w)) w))
    as [additional ->].
  unfold bind at 1. unfold Date_now at 1.
  unfold bind at 1. unfold generateConfirmationCode.
  edestruct code_loop_run as [code ->].
  eexists _, _. repeat split; try reflexivity.
Qed.

Lemma selected_cons t s selections :
  selected t (s :: selections)
  = (if decide (sel_ticketTypeId s = t) then sel_quantity s else 0) + selected t selections.
Proof.
  unfold selected. rewrite filter_cons.
  case_decide; [rewrite fmap_cons |]; unfold sumZ; simpl; lia.
Qed.

Lemma reserve_each_inv selections : ∀ w r w',
  reserve_each selections w = (r, w') →
  col_registrations w' = col_registrations w
  ∧ ∃ trace,
      journal w' = journal w ++ trace
      ∧ Forall on_ticketType trace
      ∧ written_ticketTypes trace `prefix_of` (sel_ticketTypeId <$> selections)
      ∧ (r = Ok tt →
         written_ticketTypes trace = sel_ticketTypeId <$> selections
         ∧ ∀ t, available w' t = (λ a, a - selected t selections) <$> available w t).
Proof.
  induction selections as [| s rest IH]; intros w r w' H.
  - unfold reserve_each in H. simpl in H. unfold ret in H. simplify_eq.
    split; [done |]. exists []. rewrite app_nil_r.
    split; [done |]. split; [done |]. split; [done |]. intros _. split; [done |].
    intros t. unfold available. destruct (col_ticketTypes w' !! t) as [d|]; simpl; [| done].
    f_equal. unfold selected. simpl. lia.
  - unfold reserve_each in H. cbn [for_of] in H. unfold bind at 1 in H.
    destruct (updateTicketAvailability _ _ w) as [r1 w1] eqn:E1.
    pose proof (updateTicketAvailability_journal _ _ _ _ _ E1) as (tr1 & Hj1 & Hon1 & Hwr1).
    apply updateTicketAvailability_inv in E1 as [Hreg1 Hu].
    destruct Hu as [(-> & d & Hd & Hge & Hw1) | [[e ->] Hw1]].
    + apply (IH w1 r w') in H as (Hreg & tr & Hj & Hon & Hpre & Hok).
      split; [congruence |]. exists (tr1 ++ tr).
      split; [by rewrite Hj, Hj1, app_assoc |].
      split; [by apply Forall_app |].
      unfold written_ticketTypes in *. rewrite omap_app, Hwr1. simpl.
      split; [by apply prefix_cons |].
      intros ->. destruct (Hok eq_refl) as [Hall Hav]. split; [by rewrite Hall |].
      intros t. rewrite Hav, selected_cons. unfold available.
      rewrite Hw1, lookup_alter. case_decide as Et.
      * subst t. rewrite Hd. simpl. f_equal. lia.
      * destruct (col_ticketTypes w !! t); simpl; [| done]. f_equal.
    + simplify_eq. split; [done |]. exists tr1. split; [done |]. split; [done |].
      unfold written_ticketTypes in *. rewrite Hwr1. split; [apply prefix_nil | done].
Qed.

(** What a submission leaves behind, whatever its outcome. *)
Lemma submitRegistration_inv hook formData w r w' :
  submitRegistration hook formData w = (r, w') →
  ∃ trace,
    journal w' = journal w ++ trace
    ∧ ((trace = [] ∧ same_store w w' ∧ ∃ e, r = Throw e)
       ∨ (∃ formConfig registrationData id rest,
            hk_formConfig hook = Some formConfig
            ∧ validateAvailability (hk_ticketTypes hook) (fd_ticketSelections formData)
              = Ok tt
            ∧ rd_ticketSelections registrationData = fd_ticketSelections formData
            ∧ rd_totalAmount registrationData
              = calculateTotal (hk_ticketTypes hook) (fd_ticketSelections formData)
            ∧ rd_status registrationData
              = (if fc_requiresApproval formConfig then pending else confirmed)
            ∧ rd_paymentStatus registrationData
              = (if rd_totalAmount registrationData =? 0
                 then pay_completed else pay_pending)
            ∧ trace = Added_registration id :: rest
            ∧ col_registrations w !! id = None
            ∧ col_registrations w'
              = <[id := stored registrationData (clock w)]> (col_registrations w)
            ∧ Forall on_ticketType rest
            ∧ written_ticketTypes rest
              `prefix_of` (sel_ticketTypeId <$> fd_ticketSelections formData)
            ∧ ((∃ e, r = Throw e)
               ∨ (r = Ok (mkSubmitResult id (rd_confirmationCode registrationData))
                  ∧ written_ticketTypes rest
                    = sel_ticketTypeId <$> fd_ticketSelections formData
                  ∧ ∀ t, available w' t
                         = (λ a, a - selected t (fd_ticketSelections formData))
                             <$> available w t)))).
Proof.
  intros H.
  destruct (hk_formConfig hook) as [formConfig|] eqn:Hform; cycle 1.
  { unfold submitRegistration in H. rewrite Hform in H. unfold throw in H. simplify_eq.
    exists []. rewrite app_nil_r. split; [done |]. left.
    split; [done |]. split; [apply same_store_refl | eauto]. }
  destruct (validateAvailability (hk_ticketTypes hook) (fd_ticketSelections formData))
    as [[]|e] eqn:Hvalid; cycle 1.
  { unfold submitRegistration in H. rewrite Hform, Hvalid in H.
    unfold bind, settle in H. simplify_eq.
    exists []. rewrite app_nil_r. split; [done |]. left.
    split; [done |]. split; [apply same_store_refl | eauto]. }
  destruct (submitRegistration_run hook formConfig formData w Hform Hvalid)
    as (data & n & _ & Hsel & Htotal & Hstatus & Hpay & Hrun).
  rewrite Hrun in H. clear Hrun. unfold bind at 1 in H.
  destruct (createRegistration data (set_cursor n w)) as [r1 w1] eqn:Ec.
  apply createRegistration_inv in Ec
    as [(-> & Hs & Hj) | (id & -> & Hfresh & Hregs & Htts & Hj)].
  { simplify_eq. exists []. rewrite app_nil_r. split; [done |]. left.
    split; [done |]. split; [exact Hs | eauto]. }
  unfold bind at 1 in H.
  destruct (reserve_each (fd_ticketSelections formData) w1) as [r2 w2] eqn:El.
  apply reserve_each_inv in El as (Hregs2 & rest & Hj2 & Hon & Hpre & Hok).
  exists (Added_registration id :: rest).
  assert (w2 = w') as -> by (destruct r2; unfold ret in H; by simplify_eq).
  split; [by rewrite Hj2, Hj, <- app_assoc |].
  right. exists formConfig, data, id, rest.
  do 8 (split; [done |]).
  split; [by rewrite Hregs2, Hregs |]. split; [done |]. split; [done |].
  destruct r2 as [[]|e]; unfold ret in H; simplify_eq; [right | eauto].
  destruct (Hok eq_refl) as [Hall Hav]. split; [done |]. split; [done |].
  intros t. rewrite Hav. unfold available. by rewrite Htts.
Qed.

(** ** Order of the steps of a submission *)




(** ** All or nothing *)

(** C2 does not hold of the code.  The payload selects ticket type [t1]
    twice, three tickets each time, with four available: each selection
    passes the availability check on its own, the registration is stored,
    the first decrement leaves one ticket, the second is refused.  The
    submission reports the failure, and yet a registration is stored and
    three tickets are gone. *)
Lemma submit_twice_three_is_partial :
  validateAvailability (hk_ticketTypes Scenario.hook_four_left)
    (fd_ticketSelections Scenario.twice_three) = Ok tt
  ∧ (submitRegistration Scenario.hook_four_left Scenario.twice_three
       Scenario.four_left).1
    = Throw "Insufficient ticket availability"
  ∧ col_registrations Scenario.four_left = ∅
  ∧ dom (col_registrations
           (submitRegistration Scenario.hook_four_left Scenario.twice_three
              Scenario.four_left).2) = {[ "0" ]}
  ∧ available Scenario.four_left "t1" = Some 4
  ∧ available (submitRegistration Scenario.hook_four_left Scenario.twice_three
                 Scenario.four_left).2 "t1" = Some 1
  ∧ journal (submitRegistration Scenario.hook_four_left Scenario.twice_three
               Scenario.four_left).2
    = [Added_registration "0"; Got_ticketType "t1"; Updated_ticketType "t1" 1;
       Got_ticketType "t1"].
Proof. repeat split; reflexivity. Qed.

(** ** The registration a successful submission creates *)

(** C6: after a successful submission the registration stored under the
    returned id is new, its status is ['pending'] when the form
    configuration requires approval and ['confirmed'] otherwise, and its
    paymentStatus is ['completed'] when its totalAmount is 0 and
    ['pending'] otherwise. *)
Theorem submit_initial_status hook formData w res w' :
  submitRegistration hook formData w = (Ok res, w') →
  ∃ formConfig registration,
    hk_formConfig hook = Some formConfig
    ∧ col_registrations w !! registrationId res = None
    ∧ col_registrations w' !! registrationId res = Some registration
    ∧ r_status registration
      = (if fc_requiresApproval formConfig then pending else confirmed)
    ∧ r_paymentStatus registration
      = (if r_totalAmount registration =? 0 then pay_completed else pay_pending).
Proof.
  intros H. apply submitRegistration_inv in H as (trace & _ & H).
  destruct H as [(_ & _ & e & ?) | (formConfig & data & id & rest & Hform & _ & _ & _
                                    & Hstatus & Hpay & _ & Hfresh & Hregs & _ & _ & Hr)];
    [done |].
  destruct Hr as [[e ?] | (? & _)]; [done |]. simplify_eq. simpl.
  exists formConfig, (stored data (clock w)).
  split; [done |]. split; [done |].
  split; [by rewrite Hregs, lookup_insert_eq |]. by split.
Qed.

Lemma submit_initial_status_witness :
  let out := submitRegistration Scenario.hook_four_left Scenario.two_tickets
               Scenario.four_left in
  let res := mkSubmitResult "0" "BCDEFGHI" in
  submitRegistration Scenario.hook_four_left Scenario.two_tickets Scenario.four_left
  = (Ok res, out.2)
  ∧ ∃ formConfig registration,
      hk_formConfig Scenario.hook_four_left = Some formConfig
      ∧ col_registrations Scenario.four_left !! registrationId res = None
      ∧ col_registrations out.2 !! registrationId res = Some registration
      ∧ r_status registration
        = (if fc_requiresApproval formConfig then pending else confirmed)
      ∧ r_paymentStatus registration
        = (if r_totalAmount registration =? 0 then pay_completed else pay_pending).
Proof.
  intros out res.
  assert (submitRegistration Scenario.hook_four_left Scenario.two_tickets
            Scenario.four_left = (Ok res, out.2)) as H by (vm_compute; reflexivity).
  split; [exact H |].
  exact (submit_initial_status Scenario.hook_four_left Scenario.two_tickets
           Scenario.four_left res out.2 H).
Defined.


(** ** The availability check *)

Lemma validateAvailability_Ok ticketTypes selections :
  validateAvailability ticketTypes selections = Ok tt
  ↔ Forall (λ s, ¬ offends ticketTypes s) selections.
Proof.
  induction selections as [| s rest IH]; simpl; [by split |].
  rewrite Forall_cons, <- IH. unfold offends.
  destruct (find_ticketType _ _) as [ticketType|]; cycle 1.
  { split; [done |]. intros [Hn _]. by destruct Hn. }
  destruct (_ <? _) eqn:E; [apply Z.ltb_lt in E | apply Z.ltb_ge in E]; split.
  - done.
  - intros [??]. lia.
  - intros ?. split; [lia | done].
  - by intros [_ ?].
Qed.

Lemma validateAvailability_Throw ticketTypes selections :
  Exists (offends ticketTypes) selections →
  ∃ before s after,
    selections = before ++ s :: after
    ∧ Forall (λ s, ¬ offends ticketTypes s) before
    ∧ offends ticketTypes s
    ∧ validateAvailability ticketTypes selections = Throw (offence ticketTypes s).
Proof.
  induction selections as [| s rest IH]; intros H; [by apply Exists_nil in H |].
  destruct (decide (offends ticketTypes s)) as [Hs | Hs].
  - exists [], s, rest. split; [done |]. split; [done |]. split; [done |].
    simpl. unfold offends, offence in *.
    destruct (find_ticketType _ _) as [ticketType|]; [| done].
    by rewrite (proj2 (Z.ltb_lt _ _) Hs).
  - apply Exists_cons in H as [? | H]; [done |].
    destruct (IH H) as (before & s' & after & -> & Hbefore & Hs' & Hthrow).
    exists (s :: before), s', after. split; [done |].
    split; [by constructor |]. split; [done |].
    simpl. unfold offends in Hs.
    destruct (find_ticketType _ _) as [ticketType|]; [| done].
    destruct (_ <? _) eqn:E; [apply Z.ltb_lt in E; lia | done].
Qed.

(** C10, as stated, fails in one respect: when the hook holds no form
    configuration, the guard at the head of the mutation fires first and
    the error is neither of the two of the availability check. *)
Lemma unknown_ticket_without_form :
  offends (hk_ticketTypes Scenario.no_hook_form) (mkSelection "t9" 1 50)
  ∧ submitRegistration Scenario.no_hook_form Scenario.unknown_ticket Scenario.four_left
    = (Throw "Registration form configuration not found", Scenario.four_left).
Proof. split; [exact I | reflexivity]. Qed.

(** C10 (amended): if some ticket selection of the payload names a ticket
    type that is not in the loaded set, or asks for more than the loaded set
    shows available, the submission fails in the world it started in: no
    request has been issued, no Registration is persisted and no
    availableQuantity is modified.  When the form configuration is loaded
    the error is the one of the first such selection, ['Ticket type not
    found: <id>'] or ['Insufficient tickets available for <name>']; when it
    is not, the error is ['Registration form configuration not found']. *)
Theorem submit_rejects_before_writing hook formData w :
  Exists (offends (hk_ticketTypes hook)) (fd_ticketSelections formData) →
  ∃ e,
    submitRegistration hook formData w = (Throw e, w)
    ∧ (hk_formConfig hook = None → e = "Registration form configuration not found")
    ∧ (is_Some (hk_formConfig hook) →
       ∃ before s after,
         fd_ticketSelections formData = before ++ s :: after
         ∧ Forall (λ s, ¬ offends (hk_ticketTypes hook) s) before
         ∧ offends (hk_ticketTypes hook) s
         ∧ e = offence (hk_ticketTypes hook) s).
Proof.
  intros H. unfold submitRegistration.
  destruct (hk_formConfig hook) as [formConfig|].
  - apply validateAvailability_Throw in H
      as (before & s & after & Hsplit & Hbefore & Hs & Hthrow).
    rewrite Hthrow. eexists. split; [reflexivity |]. split; [done |].
    intros _. by exists before, s, after.
  - eexists. split; [reflexivity |]. split; [done |]. by intros [??].
Qed.

Lemma submit_rejects_before_writing_witness :
  Exists (offends (hk_ticketTypes Scenario.hook_four_left))
         (fd_ticketSelections Scenario.unknown_ticket)
  ∧ ∃ e,
      submitRegistration Scenario.hook_four_left Scenario.unknown_ticket
        Scenario.four_left = (Throw e, Scenario.four_left)
      ∧ (hk_formConfig Scenario.hook_four_left = None
         → e = "Registration form configuration not found")
      ∧ (is_Some (hk_formConfig Scenario.hook_four_left) →
         ∃ before s after,
           fd_ticketSelections Scenario.unknown_ticket = before ++ s :: after
           ∧ Forall (λ s, ¬ offends (hk_ticketTypes Scenario.hook_four_left) s) before
           ∧ offends (hk_ticketTypes Scenario.hook_four_left) s
           ∧ e = offence (hk_ticketTypes Scenario.hook_four_left) s).
Proof.
  assert (Exists (offends (hk_ticketTypes Scenario.hook_four_left))
                 (fd_ticketSelections Scenario.unknown_ticket)) as H
    by (apply Exists_cons_hd; exact I).
  split; [exact H |].
  exact (submit_rejects_before_writing Scenario.hook_four_left Scenario.unknown_ticket
           Scenario.four_left H).
Defined.

(** ** The total amount *)

Lemma fold_left_add_sumZ {A} (f : A → Z) (l : list A) (acc : Z) :
  fold_left (λ sum x, sum + f x) l acc = acc + sumZ (f <$> l).
Proof.
  revert acc. induction l as [| x l IH]; intros acc; [unfold sumZ; simpl; lia |].
  rewrite fmap_cons. cbn [fold_left]. rewrite IH. unfold sumZ. cbn [foldr]. lia.
Qed.

Lemma calculateTotal_sum ticketTypes selections :
  calculateTotal ticketTypes selections
  = sumZ ((λ s, loaded_price ticketTypes s * sel_quantity s) <$> selections).
Proof.
  unfold calculateTotal.
  rewrite (fold_left_add_sumZ
             (λ s, match find_ticketType ticketTypes (sel_ticketTypeId s) with
                   | Some t => tt_price t * sel_quantity s
                   | None => 0
                   end)).
  rewrite Z.add_0_l. f_equal. apply list_fmap_ext. intros _ s _. unfold loaded_price.
  by destruct (find_ticketType _ _).
Qed.

Lemma priced_alike ticketTypes selections selections' :
  Forall2 alike selections selections' →
  (λ s, loaded_price ticketTypes s * sel_quantity s) <$> selections
  = (λ s, loaded_price ticketTypes s * sel_quantity s) <$> selections'.
Proof.
  induction 1 as [| s s' l l' [Hid Hq] _ IH]; [done |].
  rewrite !fmap_cons, IH. f_equal. unfold loaded_price. by rewrite Hid, Hq.
Qed.

Lemma submit_stored_total hook formData w res w' :
  submitRegistration hook formData w = (Ok res, w') →
  ∃ registration,
    col_registrations w' !! registrationId res = Some registration
    ∧ r_ticketSelections registration = fd_ticketSelections formData
    ∧ Forall (λ s, is_Some (find_ticketType (hk_ticketTypes hook) (sel_ticketTypeId s)))
             (fd_ticketSelections formData)
    ∧ r_totalAmount registration
      = sumZ ((λ s, loaded_price (hk_ticketTypes hook) s * sel_quantity s)
                <$> fd_ticketSelections formData).
Proof.
  intros H. apply submitRegistration_inv in H as (trace & _ & H).
  destruct H as [(_ & _ & e & ?) | (formConfig & data & id & rest & _ & Hvalid & Hsel
                                    & Htotal & _ & _ & _ & _ & Hregs & _ & _ & Hr)];
    [done |].
  destruct Hr as [[e ?] | (? & _)]; [done |]. simplify_eq. simpl.
  exists (stored data (clock w)).
  split; [by rewrite Hregs, lookup_insert_eq |]. split; [done |].
  split; [| simpl; by rewrite Htotal, calculateTotal_sum].
  apply validateAvailability_Ok in Hvalid.
  eapply Forall_impl; [exact Hvalid |]. intros s Hs. unfold offends in Hs.
  destruct (find_ticketType _ _); [eauto | done].
Qed.

(** *** Payloads that differ only in prices *)

Lemma validateAvailability_alike ticketTypes selections selections' :
  Forall2 alike selections selections' →
  validateAvailability ticketTypes selections
  = validateAvailability ticketTypes selections'.
Proof.
  induction 1 as [| s s' l l' [Hid Hq] _ IH]; [done |].
  simpl. by rewrite Hid, Hq, IH.
Qed.

Lemma updateTicketAvailability_alike ticketTypeId quantityChange wa wb :
  same_inventory wa wb →
  (updateTicketAvailability ticketTypeId quantityChange wa).1
  = (updateTicketAvailability ticketTypeId quantityChange wb).1
  ∧ same_inventory (updateTicketAvailability ticketTypeId quantityChange wa).2
                   (updateTicketAvailability ticketTypeId quantityChange wb).2.
Proof.
  intros [Ht Ho].
  unfold updateTicketAvailability, try_catch, bind, throw, getDoc_ticketType,
    updateDoc_ticketType, request, rejected, bind, throw, same_inventory.
  destruct wa as [ra ta oa ca rna cura ja], wb as [rb tb ob cb rnb curb jb].
  simpl in *. subst tb ob.
  destruct oa as [| [] [| [] later]]; simpl; try done;
    destruct (ta !! ticketTypeId) as [d|]; simpl; try done;
    destruct (_ <? 0); simpl; try done;
    rewrite ?lookup_alter_eq; by destruct (ta !! ticketTypeId).
Qed.

Lemma reserve_each_alike selections selections' :
  Forall2 alike selections selections' →
  ∀ wa wb, same_inventory wa wb →
    (reserve_each selections wa).1 = (reserve_each selections' wb).1
    ∧ same_inventory (reserve_each selections wa).2 (reserve_each selections' wb).2.
Proof.
  induction 1 as [| s s' l l' [Hid Hq] _ IH]; intros wa wb Hsame; [done |].
  unfold reserve_each. cbn [for_of]. unfold bind. rewrite <- Hid, <- Hq.
  destruct (updateTicketAvailability_alike (sel_ticketTypeId s) (- sel_quantity s)
              wa wb Hsame) as [Hr Hw].
  destruct (updateTicketAvailability _ _ wa) as [ra wa1],
           (updateTicketAvailability _ _ wb) as [rb wb1].
  simpl in Hr, Hw. subst rb. destruct ra as [[]|e]; [| done].
  apply (IH wa1 wb1 Hw).
Qed.

Lemma same_outcome_refl_Throw e w : same_outcome (Throw e, w) (Throw e, w).
Proof. by repeat split. Qed.

Lemma bind_same_outcome {A} (c : IO A) (k k' : A → IO SubmitResult) w :
  (∀ a w1, same_outcome (k a w1) (k' a w1)) →
  same_outcome (bind c k w) (bind c k' w).
Proof.
  intros H. unfold bind. destruct (c w) as [[a|e] w1]; [apply H |].
  apply same_outcome_refl_Throw.
Qed.

Lemma reserve_then_return_alike selections selections' id code wa wb r r' :
  Forall2 alike selections selections' →
  same_inventory wa wb →
  col_registrations wa !! id = Some r →
  col_registrations wb !! id = Some r' →
  r_totalAmount r' = r_totalAmount r →
  same_outcome
    ((reserve_each selections >> ret (mkSubmitResult id code)) wa)
    ((reserve_each selections' >> ret (mkSubmitResult id code)) wb).
Proof.
  intros Halike Hsame Ha Hb Htotal.
  destruct (reserve_each_alike _ _ Halike wa wb Hsame) as [Hr Hw].
  pose proof (reserve_each_inv selections wa) as Hinv.
  pose proof (reserve_each_inv selections' wb) as Hinv'.
  unfold bind.
  destruct (reserve_each selections wa) as [r1 wa1].
  destruct (reserve_each selections' wb) as [r2 wb1].
  destruct (Hinv _ _ eq_refl) as [Hregs _].
  destruct (Hinv' _ _ eq_refl) as [Hregs' _].
  simpl in Hr, Hw. subst r2. unfold same_outcome, ret.
  destruct r1 as [[]|e]; simpl; (split; [done |]); (split; [done |]); [| by intros ? [=]].
  intros res [= <-]. simpl. rewrite Hregs, Hregs'. eauto.
Qed.

Lemma submitRegistration_alike hook formData formData' w :
  same_but_prices formData formData' →
  same_outcome (submitRegistration hook formData w)
               (submitRegistration hook formData' w).
Proof.
  intros (Hprimary & Hadditional & _ & _ & Halike).
  unfold submitRegistration.
  destruct (hk_formConfig hook) as [formConfig|]; [| apply same_outcome_refl_Throw].
  rewrite <- Hprimary, <- Hadditional,
    <- (validateAvailability_alike _ _ _ Halike).
  assert (calculateTotal (hk_ticketTypes hook) (fd_ticketSelections formData')
          = calculateTotal (hk_ticketTypes hook) (fd_ticketSelections formData)) as ->.
  { rewrite !calculateTotal_sum. f_equal. symmetry. by apply priced_alike. }
  apply bind_same_outcome. intros _ w0.
  apply bind_same_outcome. intros primaryId w1.
  apply bind_same_outcome. intros additional w2.
  apply bind_same_outcome. intros registrationDate w3.
  apply bind_same_outcome. intros code w4.
  set (data := mkRegistrationData _ _ _ _ (fd_ticketSelections formData) _ _ _ _ _).
  set (data' := mkRegistrationData _ _ _ _ (fd_ticketSelections formData') _ _ _ _ _).
  unfold bind at 1 3.
  destruct (createRegistration data w4) as [ra wa] eqn:Ea.
  destruct (createRegistration data' w4) as [rb wb] eqn:Eb.
  unfold createRegistration, try_catch, bind, Date_now, addDoc_registration,
    request, rejected, bind, throw in Ea, Eb.
  destruct (outages w4) as [| [] later] eqn:Eo; simplify_eq/=;
    try apply same_outcome_refl_Throw.
  all: eapply reserve_then_return_alike;
    [done | by split | simpl; apply lookup_insert_eq
     | simpl; apply lookup_insert_eq | done].
Qed.

Lemma find_ticketType_priced_at ticketTypes s t :
  find_ticketType ticketTypes (sel_ticketTypeId s) = Some t →
  priced_at ticketTypes s t.
Proof.
  destruct ticketTypes as [l|]; [| done]. simpl.
  induction l as [| u rest IH]; [done |]. simpl.
  case_bool_decide as Hid.
  - intros [= ->]. by exists [], rest.
  - intros Hfind. destruct (IH Hfind) as (before & after & [= ->] & Hbefore & Ht).
    exists (u :: before), after. split; [done |]. split; [by constructor | done].
Qed.

Lemma priced_selections ticketTypes selections :
  Forall (λ s, is_Some (find_ticketType ticketTypes (sel_ticketTypeId s))) selections →
  ∃ priced,
    Forall2 (priced_at ticketTypes) selections priced
    ∧ (λ s, loaded_price ticketTypes s * sel_quantity s) <$> selections
      = zip_with (λ s t, tt_price t * sel_quantity s) selections priced.
Proof.
  induction 1 as [| s rest [t Ht] _ (priced & Hpriced & Hterms)].
  - by exists [].
  - exists (t :: priced). split.
    + constructor; [by apply find_ticketType_priced_at | done].
    + rewrite fmap_cons. simpl. rewrite Hterms. f_equal.
      unfold loaded_price. by rewrite Ht.
Qed.

(** C7: after a successful submission every ticket selection names a ticket
    type of the loaded set (the first of the set that carries the
    selection's ticketTypeId), and the stored totalAmount is the sum, over
    the selections, of the selection's quantity times the price of that
    ticket type.  The price fields of the selections play no part:
    submitted in the same world, a payload that differs only in those fields
    succeeds as well and stores the same totalAmount. *)
Theorem submit_totalAmount hook formData w res w' :
  submitRegistration hook formData w = (Ok res, w') →
  ∃ registration priced,
    col_registrations w' !! registrationId res = Some registration
    ∧ Forall2 (priced_at (hk_ticketTypes hook)) (fd_ticketSelections formData) priced
    ∧ r_totalAmount registration
      = sumZ (zip_with (λ s t, tt_price t * sel_quantity s)
                (fd_ticketSelections formData) priced)
    ∧ ∀ formData2,
        same_but_prices formData formData2 →
        ∃ w2' registration2,
          submitRegistration hook formData2 w = (Ok res, w2')
          ∧ col_registrations w2' !! registrationId res = Some registration2
          ∧ r_totalAmount registration2 = r_totalAmount registration.
Proof.
  intros H.
  pose proof (submit_stored_total _ _ _ _ _ H) as (registration & Hreg & _ & Hfound & Htotal).
  destruct (priced_selections _ _ Hfound) as (priced & Hpriced & Hterms).
  exists registration, priced. split; [done |]. split; [done |].
  split; [by rewrite Htotal, Hterms |].
  intros formData2 Hsame.
  pose proof (submitRegistration_alike hook formData formData2 w Hsame) as (Hr & _ & Hreg2).
  rewrite H in Hr, Hreg2. simpl in Hr, Hreg2.
  destruct (Hreg2 res eq_refl) as (registration1 & registration2 & H1 & H2 & Heq).
  assert (registration1 = registration) as -> by congruence.
  exists (submitRegistration hook formData2 w).2, registration2.
  split; [| done].
  destruct (submitRegistration hook formData2 w) as [r2 w2]. simpl in *. by subst.
Qed.

Lemma submit_totalAmount_witness :
  let out := submitRegistration Scenario.hook_four_left Scenario.two_tickets
               Scenario.four_left in
  let res := mkSubmitResult "0" "BCDEFGHI" in
  submitRegistration Scenario.hook_four_left Scenario.two_tickets Scenario.four_left
  = (Ok res, out.2)
  ∧ ∃ registration priced,
      col_registrations out.2 !! registrationId res = Some registration
      ∧ Forall2 (priced_at (hk_ticketTypes Scenario.hook_four_left))
                (fd_ticketSelections Scenario.two_tickets) priced
      ∧ r_totalAmount registration
        = sumZ (zip_with (λ s t, tt_price t * sel_quantity s)
                  (fd_ticketSelections Scenario.two_tickets) priced)
      ∧ ∀ formData2,
          same_but_prices Scenario.two_tickets formData2 →
          ∃ w2' registration2,
            submitRegistration Scenario.hook_four_left formData2 Scenario.four_left
            = (Ok res, w2')
            ∧ col_registrations w2' !! registrationId res = Some registration2
            ∧ r_totalAmount registration2 = r_totalAmount registration.
Proof.
  intros out res.
  assert (submitRegistration Scenario.hook_four_left Scenario.two_tickets
            Scenario.four_left = (Ok res, out.2)) as H by (vm_compute; reflexivity).
  split; [exact H |].
  exact (submit_totalAmount Scenario.hook_four_left Scenario.two_tickets
           Scenario.four_left res out.2 H).
Defined.

(** Where the loaded set holds several ticket types, a selection is priced
    at the one that carries its id, not at the first of the set. *)
Example total_of_the_selected_ticket_type :
  calculateTotal
    (Some [mkTicketType "t1" "General Admission" 50 10 4 true;
           mkTicketType "t2" "VIP" 200 5 5 true])
    [mkSelection "t2" 2 1]
  = 400.
Proof. reflexivity. Qed.

(** The two payloads of the example: the price field 50 or 1, the same
    total of 100 stored. *)
Example two_tickets_whatever_the_price :
  same_but_prices Scenario.two_tickets Scenario.two_tickets_cheap
  ∧ r_totalAmount
      <$> col_registrations
            (submitRegistration Scenario.hook_four_left Scenario.two_tickets
               Scenario.four_left).2 !! "0" = Some 100
  ∧ r_totalAmount
      <$> col_registrations
            (submitRegistration Scenario.hook_four_left Scenario.two_tickets_cheap
               Scenario.four_left).2 !! "0" = Some 100.
Proof.
  split; [| split; vm_compute; reflexivity].
  repeat split. repeat constructor.
Qed.

(** ** Status updates *)

(** C5, as stated, fails: no transition is checked.  A cancelled
    registration is confirmed by [updateRegistrationStatus]: the call
    succeeds, the stored status becomes ['confirmed'], and [approvedAt] is
    stamped, although the state machine allows no move out of
    ['cancelled']. *)
Lemma cancelled_is_not_terminal :
  r_status <$> col_registrations Scenario.one_cancelled !! "r1" = Some cancelled
  ∧ allowed_transition cancelled confirmed = false
  ∧ (updateRegistrationStatus "r1" confirmed None Scenario.one_cancelled).1 = Ok tt
  ∧ r_status
      <$> col_registrations
            (updateRegistrationStatus "r1" confirmed None Scenario.one_cancelled).2
          !! "r1" = Some confirmed
  ∧ r_approvedAt
      <$> col_registrations
            (updateRegistrationStatus "r1" confirmed None Scenario.one_cancelled).2
          !! "r1" = Some (Some 1700000000000).
Proof. repeat split; vm_compute; reflexivity. Qed.

(** C5 (amended): [updateRegistrationStatus] checks no transition.  For
    every stored registration and every requested status, when the store
    serves the request the call succeeds and the stored status becomes the
    requested one, whatever it was before; the paymentStatus changes only
    when one is given, [approvedAt] is stamped when the requested status is
    ['confirmed'], the other registrations and the inventory stay as they
    were. *)
Theorem updateRegistrationStatus_sets_any_status id status paymentStatus w registration :
  col_registrations w !! id = Some registration →
  head (outages w) ≠ Some true →
  ∃ w' registration',
    updateRegistrationStatus id status paymentStatus w = (Ok tt, w')
    ∧ col_registrations w' = <[id := registration']> (col_registrations w)
    ∧ col_ticketTypes w' = col_ticketTypes w
    ∧ r_status registration' = status
    ∧ r_paymentStatus registration' = default (r_paymentStatus registration) paymentStatus
    ∧ r_approvedAt registration'
      = (if decide (status = confirmed) then Some (clock w) else r_approvedAt registration)
    ∧ r_ticketSelections registration' = r_ticketSelections registration
    ∧ r_totalAmount registration' = r_totalAmount registration.
Proof.
  intros Hreg Hup.
  exists (updateRegistrationStatus id status paymentStatus w).2,
         (updateData status paymentStatus (clock w) (clock w) registration).
  unfold updateRegistrationStatus, try_catch, bind, Date_now, updateDoc_registration,
    request, rejected, bind, throw.
  destruct (outages w) as [| [] later] eqn:Eo; [| done |]; simpl; rewrite Hreg; simpl.
  all: split; [done |]; split; [| by destruct paymentStatus].
  all: apply map_eq; intros k; rewrite lookup_alter, lookup_insert;
    case_decide; [subst; by rewrite Hreg | done].
Qed.

Lemma updateRegistrationStatus_sets_any_status_witness :
  let w := Scenario.one_cancelled in
  let registration :=
    Scenario.registration cancelled pay_completed [mkSelection "t1" 2 50] 100 in
  col_registrations w !! "r1" = Some registration
  ∧ head (outages w) ≠ Some true
  ∧ ∃ w' registration',
      updateRegistrationStatus "r1" waitlisted None w = (Ok tt, w')
      ∧ col_registrations w' = <["r1" := registration']> (col_registrations w)
      ∧ col_ticketTypes w' = col_ticketTypes w
      ∧ r_status registration' = waitlisted
      ∧ r_paymentStatus registration' = default (r_paymentStatus registration) None
      ∧ r_approvedAt registration'
        = (if decide (waitlisted = confirmed) then Some (clock w)
           else r_approvedAt registration)
      ∧ r_ticketSelections registration' = r_ticketSelections registration
      ∧ r_totalAmount registration' = r_totalAmount registration.
Proof.
  intros w registration.
  assert (col_registrations w !! "r1" = Some registration) as Hreg by reflexivity.
  assert (head (outages w) ≠ Some true) as Hup by (simpl; discriminate).
  split; [exact Hreg |]. split; [exact Hup |].
  exact (updateRegistrationStatus_sets_any_status "r1" waitlisted None w registration
           Hreg Hup).
Defined.

(** ** The registration summary *)

Lemma sold_step_lookup sold s t :
  sold_step sold s !! t
  = if decide (sel_ticketTypeId s = t)
    then Some (default 0 (sold !! t) + sel_quantity s)
    else sold !! t.
Proof.
  unfold sold_step, falsy.
  case_decide as E.
  - subst t. rewrite lookup_insert_eq. f_equal.
    destruct (sold !! sel_ticketTypeId s) as [v|] eqn:Ev; simpl.
    + destruct (v =? 0) eqn:Ez.
      * apply Z.eqb_eq in Ez. subst. by rewrite lookup_total_insert_eq.
      * by rewrite (lookup_total_correct _ _ _ Ev).
    + by rewrite lookup_total_insert_eq.
  - rewrite lookup_insert_ne by done.
    destruct (sold !! sel_ticketTypeId s) as [v|]; [destruct (v =? 0) |];
      by rewrite ?lookup_insert_ne.
Qed.

Lemma selected_none t selections : ¬ selects t selections → selected t selections = 0.
Proof.
  unfold selects. induction selections as [| s rest IH]; intros H; [done |].
  rewrite selected_cons. rewrite Exists_cons in H.
  rewrite decide_False by tauto. rewrite IH by tauto. done.
Qed.

Lemma sold_selections_lookup selections : ∀ sold t,
  fold_left sold_step selections sold !! t
  = if decide (selects t selections)
    then Some (default 0 (sold !! t) + selected t selections)
    else sold !! t.
Proof.
  induction selections as [| s rest IH]; intros sold t.
  - destruct (decide (selects t [])) as [H | _]; [| done].
    unfold selects in H. by apply Exists_nil in H.
  - cbn [fold_left]. rewrite IH, sold_step_lookup, selected_cons.
    destruct (decide (selects t rest)) as [Hrest | Hrest];
      destruct (decide (sel_ticketTypeId s = t)) as [Hs | Hs];
      destruct (decide (selects t (s :: rest))) as [Hall | Hall];
      unfold selects in *; simpl.
    + f_equal; lia.
    + destruct Hall. by apply Exists_cons_tl.
    + f_equal; lia.
    + destruct Hall. by apply Exists_cons_tl.
    + rewrite selected_none by done. f_equal; lia.
    + destruct Hall. by apply Exists_cons_hd.
    + apply Exists_cons in Hall as [? | ?]; done.
    + done.
Qed.

Lemma sold_all_cons t r registrations :
  sold_all t (r :: registrations)
  = selected t (r_ticketSelections r.2) + sold_all t registrations.
Proof. unfold sold_all. by rewrite fmap_cons. Qed.

Lemma sold_all_none t registrations :
  ¬ referenced t registrations → sold_all t registrations = 0.
Proof.
  unfold referenced. induction registrations as [| r rest IH]; intros H; [done |].
  rewrite sold_all_cons. rewrite Exists_cons in H.
  rewrite selected_none by tauto. rewrite IH by tauto. done.
Qed.

Lemma sold_registrations_lookup registrations : ∀ sold t,
  fold_left (λ sold r, fold_left sold_step (r_ticketSelections r.2) sold)
            registrations sold !! t
  = if decide (referenced t registrations)
    then Some (default 0 (sold !! t) + sold_all t registrations)
    else sold !! t.
Proof.
  induction registrations as [| r rest IH]; intros sold t.
  - destruct (decide (referenced t [])) as [H | _]; [| done].
    unfold referenced in H. by apply Exists_nil in H.
  - cbn [fold_left]. rewrite IH, sold_selections_lookup, sold_all_cons.
    destruct (decide (referenced t rest)) as [Hrest | Hrest];
      destruct (decide (selects t (r_ticketSelections r.2))) as [Hr | Hr];
      destruct (decide (referenced t (r :: rest))) as [Hall | Hall];
      unfold referenced in *; simpl.
    + f_equal; lia.
    + destruct Hall. by apply Exists_cons_tl.
    + rewrite (selected_none _ _ Hr). f_equal; lia.
    + destruct Hall. by apply Exists_cons_tl.
    + rewrite sold_all_none by done. f_equal; lia.
    + destruct Hall. by apply Exists_cons_hd.
    + apply Exists_cons in Hall as [? | ?]; done.
    + done.
Qed.

Lemma sumZ_Permutation l l' : l ≡ₚ l' → sumZ l = sumZ l'.
Proof.
  unfold sumZ. induction 1 as [| x l l' _ IH | x y l | l1 l2 l3 _ IH1 _ IH2]; simpl; lia.
Qed.

Lemma sold_all_Permutation t l l' : l ≡ₚ l' → sold_all t l = sold_all t l'.
Proof. intros H. unfold sold_all. apply sumZ_Permutation. by rewrite H. Qed.

Lemma revenue_Permutation l l' : l ≡ₚ l' → revenue l = revenue l'.
Proof. intros H. unfold revenue. apply sumZ_Permutation. by rewrite H. Qed.

Lemma referenced_Permutation t l l' : l ≡ₚ l' → referenced t l ↔ referenced t l'.
Proof. intros H. unfold referenced. by rewrite H. Qed.

Lemma getRegistrationSummary_inv eventId w summary w' :
  getRegistrationSummary eventId w = (Ok summary, w') →
  summary = summarize (merge_sort later_first (event_registrations w eventId))
  ∧ same_store w w'.
Proof.
  unfold getRegistrationSummary, getEventRegistrations, try_catch, bind, ret, throw,
    getDocs_registrations, request, rejected, bind, throw, event_registrations.
  intros H. destruct (outages w) as [| [] later]; simplify_eq/=; by repeat split.
Qed.

(** C8, as stated, fails: cancelled registrations are counted.  In a store
    whose only registration is cancelled and holds two tickets of type
    [t1], the summary reports two tickets sold for [t1], where the sum over
    the registrations that are not cancelled is 0. *)
Lemma cancelled_tickets_are_counted :
  r_status <$> col_registrations Scenario.one_cancelled !! "r1" = Some cancelled
  ∧ (getRegistrationSummary "event-1" Scenario.one_cancelled).1
    = Ok (mkSummary 1 0 0 100 {[ "t1" := 2 ]} {[ 19675 := 1 ]})
  ∧ sold_not_cancelled "t1" (event_registrations Scenario.one_cancelled "event-1") = 0
  ∧ sold_all "t1" (event_registrations Scenario.one_cancelled "event-1") = 2.
Proof. repeat split; vm_compute; reflexivity. Qed.

(** C8 (amended): for every event, [getRegistrationSummary] computes
    [ticketsSold[t]] as the sum of the quantities of the ticket selections
    on [t] across all registrations of the event, the cancelled ones
    included (a ticket type that no selection names has no entry), and
    [totalRevenue] as the sum of [totalAmount] over the registrations of the
    event whose paymentStatus is ['completed']. *)
Theorem summary_counts_every_registration eventId w summary w' :
  getRegistrationSummary eventId w = (Ok summary, w') →
  (∀ t, ticketsSold summary !! t
        = if decide (referenced t (event_registrations w eventId))
          then Some (sold_all t (event_registrations w eventId))
          else None)
  ∧ totalRevenue summary = revenue (event_registrations w eventId).
Proof.
  intros H. apply getRegistrationSummary_inv in H as [-> _].
  pose proof (merge_sort_Permutation later_first (event_registrations w eventId)) as Hperm.
  split.
  - intros t. simpl. unfold sold_by_type.
    rewrite sold_registrations_lookup, lookup_empty. simpl.
    rewrite (sold_all_Permutation _ _ _ Hperm).
    destruct (decide (referenced t (merge_sort _ _))) as [Hs | Hs];
      destruct (decide (referenced t (event_registrations w eventId))) as [Hr | Hr];
      try done.
    + by apply (referenced_Permutation _ _ _ Hperm) in Hs.
    + by apply (referenced_Permutation _ _ _ Hperm) in Hr.
  - simpl. rewrite <- (revenue_Permutation _ _ Hperm). unfold revenue.
    by rewrite (fold_left_add_sumZ (λ r, r_totalAmount r.2)).
Qed.

Lemma summary_counts_every_registration_witness :
  let w := Scenario.one_cancelled in
  let summary := mkSummary 1 0 0 100 {[ "t1" := 2 ]} {[ 19675 := 1 ]} in
  let w' := (getRegistrationSummary "event-1" w).2 in
  getRegistrationSummary "event-1" w = (Ok summary, w')
  ∧ (∀ t, ticketsSold summary !! t
          = if decide (referenced t (event_registrations w "event-1"))
            then Some (sold_all t (event_registrations w "event-1"))
            else None)
  ∧ totalRevenue summary = revenue (event_registrations w "event-1").
Proof.
  intros w summary w'.
  assert (getRegistrationSummary "event-1" w = (Ok summary, w')) as H
    by (vm_compute; reflexivity).
  split; [exact H |].
  exact (summary_counts_every_registration "event-1" w summary w' H).
Defined.

(** ** Required text fields *)

(** C9 does not hold of the code: the validator compiled for a required
    text field (or textarea) that declares no constraint accepts the empty
    string, whatever the regular-expression engine, the e-mail test and the
    date parser are. *)
Lemma required_text_accepts_empty
    (RegExp : string → option (string → bool)) (email_test : string → bool)
    (Date_parse : string → option Z) :
  cf_required Scenario.required_text = true
  ∧ cf_type Scenario.required_text = ft_text
  ∧ ∃ validation,
      createCustomFieldValidation RegExp email_test Date_parse Scenario.required_text
      = Ok validation
      ∧ validation (JsString "") = []
      ∧ accepts validation (JsString "") = true
      ∧ accepts validation JsUndefined = false.
Proof.
  split; [done |]. split; [done |]. eexists. split; [reflexivity |]. by repeat split.
Qed.

(** Which strings the validator of a text field accepts: exactly those
    within the declared lengths and matching the declared pattern. *)
Lemma text_validation_accepts
    (RegExp : string → option (string → bool)) (email_test : string → bool)
    (Date_parse : string → option Z) field validation s :
  cf_type field = ft_text ∨ cf_type field = ft_textarea →
  createCustomFieldValidation RegExp email_test Date_parse field = Ok validation →
  validation (JsString s) = []
  ↔ (∀ n, truthy_number (declared fv_minLength field) = Some n → n ≤ js_length s)
    ∧ (∀ n, truthy_number (declared fv_maxLength field) = Some n → js_length s ≤ n)
    ∧ (∀ p test, truthy_string (declared fv_pattern field) = Some p →
                 RegExp p = Some test → test s = true).
Proof.
  intros Htype H.
  assert (∃ schema, textValidation RegExp field = Ok schema
                    ∧ validation (JsString s) = parse_string schema (JsString s))
    as (schema & Hschema & ->).
  { unfold createCustomFieldValidation in H.
    destruct Htype as [Ht | Ht]; rewrite Ht in H;
      destruct (textValidation RegExp field) as [schema|]; simplify_eq;
      exists schema; (split; [done |]);
      unfold required_or_optional; by destruct (cf_required field). }
  unfold textValidation in Hschema. simpl.
  destruct (truthy_number (declared fv_minLength field)) as [lo|];
    destruct (truthy_number (declared fv_maxLength field)) as [hi|];
    destruct (truthy_string (declared fv_pattern field)) as [p|];
    try (destruct (RegExp p) as [test|] eqn:Ep); simplify_eq;
    unfold z_regex, z_max, z_min, z_string; simpl;
    repeat match goal with
           | |- context [js_length s <? ?n] => destruct (Z.ltb_spec (js_length s) n)
           | |- context [?n <? js_length s] => destruct (Z.ltb_spec n (js_length s))
           | |- context [if ?t s then _ else _] => destruct (t s) eqn:?
           end; simpl;
    split; try done;
    try (intros (Hlo & Hhi & Hp);
         try (specialize (Hlo _ eq_refl)); try (specialize (Hhi _ eq_refl));
         try (match goal with
              | Ep : RegExp _ = Some _ |- _ => specialize (Hp _ _ eq_refl Ep)
              end);
         first [lia | congruence]);
    try (intros _; repeat split; intros; simplify_eq; first [lia | congruence]).
Qed.

(** ** The repository's unit tests, replayed on the embedding *)

(** [ticketTypeService.test.ts]: 50 available and a change of -2 write 48;
    1 available and a change of -5 is refused; a missing ticket type is
    reported. *)
Example test_update_ticket_availability :
  let w := Scenario.quiet ∅ {[ "ticket-123" := mkTicketTypeData "General" 50 100 50 true ]} in
  (updateTicketAvailability "ticket-123" (-2) w).1 = Ok tt
  ∧ journal (updateTicketAvailability "ticket-123" (-2) w).2
    = [Got_ticketType "ticket-123"; Updated_ticketType "ticket-123" 48].
Proof. split; reflexivity. Qed.

Example test_insufficient_availability :
  let w := Scenario.quiet ∅ {[ "ticket-123" := mkTicketTypeData "General" 50 100 1 true ]} in
  updateTicketAvailability "ticket-123" (-5) w
  = (Throw "Insufficient ticket availability",
     served (Got_ticketType "ticket-123") w).
Proof. reflexivity. Qed.

Example test_ticket_type_not_found :
  (updateTicketAvailability "ticket-123" (-1) (Scenario.quiet ∅ ∅)).1
  = Throw "Ticket type not found".
Proof. reflexivity. Qed.

(** [registrationService.test.ts], "should calculate registration summary
    correctly": 25 and 26 December 2023 are days 19716 and 19717. *)
Example test_registration_summary :
  let r status payment total selections date :=
    mkRegistration "event-1" "form-1" (mkParticipant "p" Scenario.alice []) []
      selections total status payment date "CODE0001" None date date in
  summarize
    [("reg-1", r confirmed pay_completed 100 [mkSelection "ticket-1" 2 50] 1703462400000);
     ("reg-2", r pending pay_pending 50 [mkSelection "ticket-2" 1 50] 1703462400000);
     ("reg-3", r confirmed pay_completed 75 [mkSelection "ticket-1" 1 75] 1703548800000)]
  = mkSummary 3 2 1 175
      {[ "ticket-1" := 3; "ticket-2" := 1 ]}
      {[ 19716 := 2; 19717 := 1 ]}.
Proof. vm_compute. reflexivity. Qed.

(** [registration.test.ts]: length constraints, phone numbers, select
    options, required checkboxes, optional fields. *)
Example test_text_length_constraints
    (RegExp : string → option (string → bool)) (email_test : string → bool)
    (Date_parse : string → option Z) :
  let textField :=
    mkCustomField "text-1" "description" "Description" ft_text true None None
      (Some (mkFieldValidation (Some 10) (Some 100) None None None)) 1 in
  ∃ validation,
    createCustomFieldValidation RegExp email_test Date_parse textField = Ok validation
    ∧ accepts validation (JsString "This is a valid description") = true
    ∧ validation (JsString "Short") = ["Minimum 10 characters required"]
    ∧ validation (JsString "") = ["Minimum 10 characters required"].
Proof. eexists. split; [reflexivity |]. by repeat split. Qed.

Example test_phone_validation
    (RegExp : string → option (string → bool)) (email_test : string → bool)
    (Date_parse : string → option Z) :
  let phoneField :=
    mkCustomField "phone-1" "phone" "Phone" ft_phone true None None None 1 in
  ∃ validation,
    createCustomFieldValidation RegExp email_test Date_parse phoneField = Ok validation
    ∧ accepts validation (JsString "+1234567890") = true
    ∧ accepts validation (JsString "1234567890") = true
    ∧ accepts validation (JsString "abc123") = false.
Proof. eexists. split; [reflexivity |]. by repeat split. Qed.

Example test_select_and_checkbox
    (RegExp : string → option (string → bool)) (email_test : string → bool)
    (Date_parse : string → option Z) :
  let selectField :=
    mkCustomField "select-1" "country" "Country" ft_select true None
      (Some ["USA"; "Canada"; "UK"]) None 1 in
  let checkboxField :=
    mkCustomField "checkbox-1" "newsletter" "Subscribe to newsletter" ft_checkbox true
      None None None 1 in
  let optionalField :=
    mkCustomField "optional-1" "optional" "Optional Field" ft_text false None None None 1 in
  ∃ select checkbox optional,
    createCustomFieldValidation RegExp email_test Date_parse selectField = Ok select
    ∧ createCustomFieldValidation RegExp email_test Date_parse checkboxField = Ok checkbox
    ∧ createCustomFieldValidation RegExp email_test Date_parse optionalField = Ok optional
    ∧ accepts select (JsString "USA") = true
    ∧ accepts select (JsString "Germany") = false
    ∧ accepts checkbox (JsBool true) = true
    ∧ checkbox (JsBool false) = ["Subscribe to newsletter is required"]
    ∧ accepts optional (JsString "Some value") = true
    ∧ accepts optional JsUndefined = true.
Proof. eexists _, _, _. do 3 (split; [reflexivity |]). by repeat split. Qed.

(** [edgeCases.test.ts] expects a required file field to refuse the empty
    string; the validator refuses only [undefined] and [null]. *)
Example test_required_file_and_empty_string
    (RegExp : string → option (string → bool)) (email_test : string → bool)
    (Date_parse : string → option Z) :
  let fileField :=
    mkCustomField "file-1" "document" "Document" ft_file true None None
      (Some (mkFieldValidation None None None (Some [".pdf"]) (Some 1024))) 1 in
  ∃ validation,
    createCustomFieldValidation RegExp email_test Date_parse fileField = Ok validation
    ∧ accepts validation (JsString "valid-file-reference") = true
    ∧ validation JsUndefined = ["Document is required"]
    ∧ validation JsNull = ["Document is required"]
    ∧ accepts validation (JsString "") = true.
Proof. eexists. split; [reflexivity |]. by repeat split. Qed.

(** * Further properties of the services and of the hook *)

(** ** Confirmation codes *)

Lemma length_append (a b : string) :
  String.length (a +:+ b) = (String.length a + String.length b)%nat.
Proof. induction a as [| c a IH]; simpl; [done | by rewrite IH]. Qed.

Lemma list_ascii_append (a b : string) :
  String.list_ascii_of_string (a +:+ b)
  = String.list_ascii_of_string a ++ String.list_ascii_of_string b.
Proof. induction a as [| c a IH]; simpl; [done | by rewrite IH]. Qed.

Lemma charAt_in_range (s : string) : ∀ i,
  (i < String.length s)%nat →
  ∃ c, charAt s i = String c "" ∧ c ∈ String.list_ascii_of_string s.
Proof.
  unfold charAt. induction s as [| c s IH]; intros i Hi; simpl in *; [lia |].
  destruct i as [| i].
  - exists c. split; [done | left].
  - destruct (IH i) as (c' & Hget & Hin); [lia |].
    exists c'. split; [done | by right].
Qed.

Lemma code_loop_format remaining : ∀ result w,
  ∃ code,
    code_loop remaining result w = (Ok code, set_cursor (remaining + cursor w) w)
    ∧ String.length code = (String.length result + remaining)%nat
    ∧ (drawn_from chars result → drawn_from chars code).
Proof.
  induction remaining as [| n IH]; intros result w.
  - exists result. simpl. unfold ret. rewrite set_cursor_same.
    split; [done |]. split; [lia | done].
  - cbn [code_loop]. unfold bind at 1, random_below, bind, next_random, ret.
    destruct (charAt_in_range chars (random w (cursor w) `mod` String.length chars))
      as (c & Hc & Hin).
    { apply Nat.mod_upper_bound. simpl. lia. }
    rewrite Hc.
    destruct (IH (result +:+ String c "") (set_cursor (S (cursor w)) w))
      as (code & -> & Hlen & Hdrawn).
    exists code. rewrite set_cursor_twice. split; [f_equal; f_equal; simpl; lia |].
    split.
    + rewrite Hlen, length_append. simpl. lia.
    + intros Hresult. apply Hdrawn. unfold drawn_from in *.
      rewrite list_ascii_append. apply Forall_app. split; [done |].
      simpl. by apply Forall_singleton.
Qed.

(** X1: [generateConfirmationCode] always returns a code of exactly eight
    characters, each one of [A-Z0-9]; it takes eight values from the random
    source and touches nothing else. *)
Theorem generateConfirmationCode_format w :
  ∃ code,
    generateConfirmationCode w = (Ok code, set_cursor (8 + cursor w) w)
    ∧ String.length code = 8%nat
    ∧ drawn_from chars code.
Proof.
  unfold generateConfirmationCode.
  destruct (code_loop_format 8 "" w) as (code & Hrun & Hlen & Hdrawn).
  exists code. split; [done |]. split; [done |]. apply Hdrawn. constructor.
Qed.

(** ** Reading registrations back *)

(** X2: a registration that [createRegistration] has stored is what
    [getRegistration] returns for the id it was given: the data that were
    passed, with [createdAt] and [updatedAt] both at the time of creation and
    no [approvedAt]; reading changes no document. *)
Theorem getRegistration_after_createRegistration registrationData id w w1 :
  createRegistration registrationData w = (Ok id, w1) →
  head (outages w1) ≠ Some true →
  ∃ w2,
    getRegistration id w1 = (Ok (Some (id, stored registrationData (clock w))), w2)
    ∧ same_store w1 w2.
Proof.
  intros Hcreate Hup.
  apply createRegistration_inv in Hcreate
    as [(? & _) | (id' & [= <-] & _ & Hregs & _)]; [done |].
  unfold getRegistration, try_catch, bind, getDoc_registration, request, rejected,
    bind, throw, ret.
  destruct (outages w1) as [| [] later] eqn:Eo; [| done |]; simpl;
    rewrite Hregs, lookup_insert_eq; eexists; (split; [reflexivity |]); by split.
Qed.

Lemma getRegistration_after_createRegistration_witness :
  let data :=
    mkRegistrationData "event-1" "form-1" (mkParticipant "p-1" Scenario.alice []) []
      [mkSelection "t1" 2 50] 100 confirmed pay_pending 1700000000000 "ABCD1234" in
  let w := Scenario.four_left in
  let w1 := (createRegistration data w).2 in
  createRegistration data w = (Ok "0", w1)
  ∧ head (outages w1) ≠ Some true
  ∧ ∃ w2,
      getRegistration "0" w1 = (Ok (Some ("0", stored data (clock w))), w2)
      ∧ same_store w1 w2.
Proof.
  intros data w w1.
  assert (createRegistration data w = (Ok "0", w1)) as H by (vm_compute; reflexivity).
  assert (head (outages w1) ≠ Some true) as Hup by (vm_compute; discriminate).
  split; [exact H |]. split; [exact Hup |].
  exact (getRegistration_after_createRegistration data "0" w w1 H Hup).
Defined.

Lemma later_first_total : Total later_first.
Proof. intros a b. unfold later_first. lia. Qed.

(** X3: when [getEventRegistrations] returns, its result holds exactly the
    stored registrations of the event, each with its id and once, latest
    registration date first; the store is as it was. *)
Theorem getEventRegistrations_sorted eventId w registrations w' :
  getEventRegistrations eventId w = (Ok registrations, w') →
  registrations ≡ₚ event_registrations w eventId
  ∧ Sorted later_first registrations
  ∧ NoDup registrations
  ∧ (∀ id r, (id, r) ∈ registrations
             ↔ col_registrations w !! id = Some r ∧ r_eventId r = eventId)
  ∧ same_store w w'.
Proof.
  unfold getEventRegistrations, try_catch, bind, throw, getDocs_registrations,
    request, rejected, bind, throw.
  intros H.
  assert (registrations = merge_sort later_first (event_registrations w eventId)
          ∧ same_store w w') as [-> Hs].
  { destruct (outages w) as [| [] later]; simplify_eq/=; by repeat split. }
  pose proof (merge_sort_Permutation later_first (event_registrations w eventId)) as Hperm.
  split; [done |]. split; [apply (@Sorted_merge_sort _ later_first _ later_first_total) |].
  split; [| split; [| done]].
  - rewrite Hperm. unfold event_registrations.
    apply NoDup_filter, NoDup_map_to_list.
  - intros id r. rewrite Hperm. unfold event_registrations.
    rewrite list_elem_of_filter, elem_of_map_to_list. simpl. tauto.
Qed.

Lemma getEventRegistrations_sorted_witness :
  let w := Scenario.one_cancelled in
  let registrations :=
    [("r1", Scenario.registration cancelled pay_completed [mkSelection "t1" 2 50] 100)] in
  let w' := (getEventRegistrations "event-1" w).2 in
  getEventRegistrations "event-1" w = (Ok registrations, w')
  ∧ registrations ≡ₚ event_registrations w "event-1"
  ∧ Sorted later_first registrations
  ∧ NoDup registrations
  ∧ (∀ id r, (id, r) ∈ registrations
             ↔ col_registrations w !! id = Some r ∧ r_eventId r = "event-1")
  ∧ same_store w w'.
Proof.
  intros w registrations w'.
  assert (getEventRegistrations "event-1" w = (Ok registrations, w')) as H
    by (vm_compute; reflexivity).
  split; [exact H |].
  exact (getEventRegistrations_sorted "event-1" w registrations w' H).
Defined.

(** ** Status updates on missing and on stored registrations *)

(** X4: [updateRegistrationStatus] on an id under which nothing is stored
    fails with ['Failed to update registration status'], creates no
    document and changes none. *)
Theorem updateRegistrationStatus_missing id status paymentStatus w :
  col_registrations w !! id = None →
  ∃ w',
    updateRegistrationStatus id status paymentStatus w
    = (Throw "Failed to update registration status", w')
    ∧ same_store w w'
    ∧ journal w' = journal w.
Proof.
  intros Hmissing.
  unfold updateRegistrationStatus, try_catch, bind, Date_now, updateDoc_registration,
    request, rejected, bind, throw.
  destruct (outages w) as [| [] later]; simpl; rewrite ?Hmissing;
    eexists; (split; [reflexivity |]); by repeat split.
Qed.

Lemma updateRegistrationStatus_missing_witness :
  col_registrations Scenario.one_cancelled !! "r2" = None
  ∧ ∃ w',
      updateRegistrationStatus "r2" confirmed None Scenario.one_cancelled
      = (Throw "Failed to update registration status", w')
      ∧ same_store Scenario.one_cancelled w'
      ∧ journal w' = journal Scenario.one_cancelled.
Proof.
  assert (col_registrations Scenario.one_cancelled !! "r2" = None) as H by reflexivity.
  split; [exact H |].
  exact (updateRegistrationStatus_missing "r2" confirmed None Scenario.one_cancelled H).
Defined.

Lemma updateRegistrationStatus_served id status paymentStatus w registration :
  col_registrations w !! id = Some registration →
  outages w = [] →
  updateRegistrationStatus id status paymentStatus w
  = (Ok tt,
     served (Updated_registration id)
       (set_registrations
          (alter (updateData status paymentStatus (clock w) (clock w)) id) w)).
Proof.
  intros Hreg Ho.
  unfold updateRegistrationStatus, try_catch, bind, Date_now, updateDoc_registration,
    request, rejected, bind, throw.
  rewrite Ho. simpl. by rewrite Hreg.
Qed.

(** X5: confirming a stored registration and then cancelling it (both
    requests served) leaves it cancelled with the [approvedAt] stamp of the
    confirmation still in place and its paymentStatus, ticket selections and
    totalAmount as before; the inventory is not touched. *)
Theorem confirm_then_cancel id w registration :
  col_registrations w !! id = Some registration →
  outages w = [] →
  ∃ w1 w2 registration',
    updateRegistrationStatus id confirmed None w = (Ok tt, w1)
    ∧ updateRegistrationStatus id cancelled None w1 = (Ok tt, w2)
    ∧ col_registrations w2 = <[id := registration']> (col_registrations w)
    ∧ col_ticketTypes w2 = col_ticketTypes w
    ∧ r_status registration' = cancelled
    ∧ r_approvedAt registration' = Some (clock w)
    ∧ r_paymentStatus registration' = r_paymentStatus registration
    ∧ r_ticketSelections registration' = r_ticketSelections registration
    ∧ r_totalAmount registration' = r_totalAmount registration.
Proof.
  intros Hreg Ho.
  pose proof (updateRegistrationStatus_served id confirmed None w registration Hreg Ho)
    as H1.
  set (r1 := updateData confirmed None (clock w) (clock w) registration).
  set (w1 := served (Updated_registration id)
               (set_registrations
                  (alter (updateData confirmed None (clock w) (clock w)) id) w)) in *.
  assert (col_registrations w1 !! id = Some r1) as Hreg1.
  { subst w1. simpl. by rewrite lookup_alter_eq, Hreg. }
  pose proof (updateRegistrationStatus_served id cancelled None w1 r1 Hreg1 Ho) as H2.
  eexists w1, _, (updateData cancelled None (clock w) (clock w) r1).
  split; [exact H1 |]. split; [exact H2 |].
  split; [| do 5 (split; [reflexivity |]); reflexivity].
  simpl. apply map_eq. intros k. destruct (decide (id = k)) as [<- | Hne].
  - by rewrite !lookup_alter_eq, lookup_insert_eq, Hreg.
  - by rewrite !lookup_alter_ne, lookup_insert_ne.
Qed.

Lemma confirm_then_cancel_witness :
  let w :=
    Scenario.quiet
      {[ "r1" := Scenario.registration pending pay_pending [mkSelection "t1" 2 50] 100 ]}
      ∅ in
  let registration :=
    Scenario.registration pending pay_pending [mkSelection "t1" 2 50] 100 in
  col_registrations w !! "r1" = Some registration
  ∧ outages w = []
  ∧ ∃ w1 w2 registration',
      updateRegistrationStatus "r1" confirmed None w = (Ok tt, w1)
      ∧ updateRegistrationStatus "r1" cancelled None w1 = (Ok tt, w2)
      ∧ col_registrations w2 = <["r1" := registration']> (col_registrations w)
      ∧ col_ticketTypes w2 = col_ticketTypes w
      ∧ r_status registration' = cancelled
      ∧ r_approvedAt registration' = Some (clock w)
      ∧ r_paymentStatus registration' = r_paymentStatus registration
      ∧ r_ticketSelections registration' = r_ticketSelections registration
      ∧ r_totalAmount registration' = r_totalAmount registration.
Proof.
  intros w registration.
  assert (col_registrations w !! "r1" = Some registration) as Hreg by reflexivity.
  assert (outages w = []) as Ho by reflexivity.
  split; [exact Hreg |]. split; [exact Ho |].
  exact (confirm_then_cancel "r1" w registration Hreg Ho).
Defined.

(** ** The counts of the summary *)

Lemma length_by_status (registrations : list (string * Registration)) :
  length registrations
  = (length (with_status confirmed registrations)
     + length (with_status pending registrations)
     + length (with_status cancelled registrations)
     + length (with_status waitlisted registrations))%nat.
Proof.
  unfold with_status. induction registrations as [| r l IH]; [done |].
  rewrite !filter_cons. simpl.
  destruct (r_status r.2); repeat case_decide; try done; simpl; lia.
Qed.

Lemma with_status_Permutation status l l' :
  l ≡ₚ l' → length (with_status status l) = length (with_status status l').
Proof. intros H. unfold with_status. by rewrite H. Qed.

(** X6: the summary counts every registration of the event in
    [totalRegistrations], the confirmed and the pending ones in their own
    counters, and has no counter for the cancelled and the waitlisted ones:
    the total is the two counters plus the numbers of cancelled and
    waitlisted registrations. *)
Theorem summary_status_counts eventId w summary w' :
  getRegistrationSummary eventId w = (Ok summary, w') →
  totalRegistrations summary = Z.of_nat (length (event_registrations w eventId))
  ∧ confirmedRegistrations summary
    = Z.of_nat (length (with_status confirmed (event_registrations w eventId)))
  ∧ pendingRegistrations summary
    = Z.of_nat (length (with_status pending (event_registrations w eventId)))
  ∧ totalRegistrations summary
    = confirmedRegistrations summary + pendingRegistrations summary
      + Z.of_nat (length (with_status cancelled (event_registrations w eventId)))
      + Z.of_nat (length (with_status waitlisted (event_registrations w eventId))).
Proof.
  intros H. apply getRegistrationSummary_inv in H as [-> _].
  pose proof (merge_sort_Permutation later_first (event_registrations w eventId)) as Hperm.
  simpl. fold (with_status confirmed (merge_sort later_first (event_registrations w eventId))).
  fold (with_status pending (merge_sort later_first (event_registrations w eventId))).
  rewrite !(with_status_Permutation _ _ _ Hperm), Hperm.
  split; [done |]. split; [done |]. split; [done |].
  rewrite (length_by_status (event_registrations w eventId)) at 1. lia.
Qed.

Lemma summary_status_counts_witness :
  let w := Scenario.one_cancelled in
  let summary := mkSummary 1 0 0 100 {[ "t1" := 2 ]} {[ 19675 := 1 ]} in
  let w' := (getRegistrationSummary "event-1" w).2 in
  getRegistrationSummary "event-1" w = (Ok summary, w')
  ∧ totalRegistrations summary = Z.of_nat (length (event_registrations w "event-1"))
  ∧ confirmedRegistrations summary
    = Z.of_nat (length (with_status confirmed (event_registrations w "event-1")))
  ∧ pendingRegistrations summary
    = Z.of_nat (length (with_status pending (event_registrations w "event-1")))
  ∧ totalRegistrations summary
    = confirmedRegistrations summary + pendingRegistrations summary
      + Z.of_nat (length (with_status cancelled (event_registrations w "event-1")))
      + Z.of_nat (length (with_status waitlisted (event_registrations w "event-1"))).
Proof.
  intros w summary w'.
  assert (getRegistrationSummary "event-1" w = (Ok summary, w')) as H
    by (vm_compute; reflexivity).
  split; [exact H |].
  exact (summary_status_counts "event-1" w summary w' H).
Defined.

Lemma by_date_step_lookup days r d :
  by_date_step days r !! d
  = if decide (dateKey (r_registrationDate r.2) = d)
    then Some (default 0 (days !! d) + 1)
    else days !! d.
Proof.
  unfold by_date_step, falsy.
  case_decide as E.
  - subst d. rewrite lookup_insert_eq. f_equal.
    destruct (days !! dateKey (r_registrationDate r.2)) as [v|] eqn:Ev; simpl.
    + destruct (v =? 0) eqn:Ez.
      * apply Z.eqb_eq in Ez. subst. by rewrite lookup_total_insert_eq.
      * by rewrite (lookup_total_correct _ _ _ Ev).
    + by rewrite lookup_total_insert_eq.
  - rewrite lookup_insert_ne by done.
    destruct (days !! dateKey (r_registrationDate r.2)) as [v|]; [destruct (v =? 0) |];
      by rewrite ?lookup_insert_ne.
Qed.

Lemma by_date_lookup registrations : ∀ days d,
  fold_left by_date_step registrations days !! d
  = match on_day d registrations with
    | [] => days !! d
    | _ :: _ => Some (default 0 (days !! d) + Z.of_nat (length (on_day d registrations)))
    end.
Proof.
  unfold on_day. induction registrations as [| r l IH]; intros days d; [done |].
  cbn [fold_left]. rewrite IH, by_date_step_lookup, filter_cons.
  destruct (decide (dateKey (r_registrationDate r.2) = d)) as [E | E].
  - destruct (filter _ l) as [| r' l'] eqn:El; simpl; f_equal; lia.
  - by destruct (filter _ l).
Qed.

Lemma table_total_insert (table : gmap Z Z) k v :
  table_total (<[k := v]> table) = table_total table - default 0 (table !! k) + v.
Proof.
  unfold table_total.
  assert (∀ (m : gmap Z Z) j1 j2 z1 z2 (y : Z),
            j1 ≠ j2 → m !! j1 = Some z1 → m !! j2 = Some z2 →
            z1 + (z2 + y) = z2 + (z1 + y)) as Hcomm by (intros; lia).
  destruct (table !! k) as [old|] eqn:E; simpl.
  - rewrite <- insert_delete_eq.
    rewrite (map_fold_insert_L _ _ _ _ _ (Hcomm _)) by apply lookup_delete_eq.
    rewrite (map_fold_delete_L _ _ _ _ _ (Hcomm _) E). lia.
  - rewrite (map_fold_insert_L _ _ _ _ _ (Hcomm _) E). lia.
Qed.

Lemma table_total_by_date registrations : ∀ days,
  table_total (fold_left by_date_step registrations days)
  = table_total days + Z.of_nat (length registrations).
Proof.
  induction registrations as [| r l IH]; intros days; [simpl; lia |].
  cbn [fold_left]. rewrite IH.
  assert (table_total (by_date_step days r) = table_total days + 1) as ->.
  { pose proof (by_date_step_lookup days r (dateKey (r_registrationDate r.2))) as Hk.
    rewrite decide_True in Hk by done.
    unfold by_date_step, falsy in *.
    destruct (days !! dateKey (r_registrationDate r.2)) as [v|] eqn:Ev; simpl in *.
    - destruct (v =? 0) eqn:Ez.
      + apply Z.eqb_eq in Ez. subst v.
        rewrite lookup_total_insert_eq, !table_total_insert, lookup_insert_eq, Ev.
        simpl. lia.
      + rewrite (lookup_total_correct _ _ _ Ev), table_total_insert, Ev. simpl. lia.
    - rewrite lookup_total_insert_eq, !table_total_insert, lookup_insert_eq, Ev.
      simpl. lia. }
  simpl length. lia.
Qed.

(** X7: in the summary, [registrationsByDate] has an entry exactly for the
    days on which some registration of the event was made, the entry of a
    day is the number of registrations made on it, and the entries add up
    to [totalRegistrations]. *)
Theorem summary_registrations_by_date eventId w summary w' :
  getRegistrationSummary eventId w = (Ok summary, w') →
  (∀ day, registrationsByDate summary !! day
          = match on_day day (event_registrations w eventId) with
            | [] => None
            | _ :: _ =>
                Some (Z.of_nat (length (on_day day (event_registrations w eventId))))
            end)
  ∧ table_total (registrationsByDate summary) = totalRegistrations summary.
Proof.
  intros H. apply getRegistrationSummary_inv in H as [-> _].
  pose proof (merge_sort_Permutation later_first (event_registrations w eventId)) as Hperm.
  split.
  - intros day. simpl. rewrite by_date_lookup, lookup_empty. simpl.
    assert (on_day day (merge_sort later_first (event_registrations w eventId))
            ≡ₚ on_day day (event_registrations w eventId)) as Hday
      by (unfold on_day; by rewrite Hperm).
    destruct (on_day day (merge_sort _ _)) as [| r l] eqn:Es;
      destruct (on_day day (event_registrations w eventId)) as [| r' l'] eqn:Ee.
    + done.
    + by apply Permutation_nil_cons in Hday.
    + symmetry in Hday. by apply Permutation_nil_cons in Hday.
    + f_equal. by rewrite Hday.
  - simpl. rewrite table_total_by_date. unfold table_total. rewrite map_fold_empty. lia.
Qed.

Lemma summary_registrations_by_date_witness :
  let w := Scenario.one_cancelled in
  let summary := mkSummary 1 0 0 100 {[ "t1" := 2 ]} {[ 19675 := 1 ]} in
  let w' := (getRegistrationSummary "event-1" w).2 in
  getRegistrationSummary "event-1" w = (Ok summary, w')
  ∧ (∀ day, registrationsByDate summary !! day
            = match on_day day (event_registrations w "event-1") with
              | [] => None
              | _ :: _ =>
                  Some (Z.of_nat (length (on_day day (event_registrations w "event-1"))))
              end)
  ∧ table_total (registrationsByDate summary) = totalRegistrations summary.
Proof.
  intros w summary w'.
  assert (getRegistrationSummary "event-1" w = (Ok summary, w')) as H
    by (vm_compute; reflexivity).
  split; [exact H |].
  exact (summary_registrations_by_date "event-1" w summary w' H).
Defined.

(** ** Reserving and releasing *)

Lemma updateTicketAvailability_served ticketTypeId quantityChange w d :
  outages w = [] →
  col_ticketTypes w !! ticketTypeId = Some d →
  0 ≤ td_availableQuantity d + quantityChange →
  updateTicketAvailability ticketTypeId quantityChange w
  = (Ok tt,
     served (Updated_ticketType ticketTypeId (td_availableQuantity d + quantityChange))
       (set_ticketTypes
          (alter (with_availableQuantity (td_availableQuantity d + quantityChange))
                 ticketTypeId)
          (served (Got_ticketType ticketTypeId) w))).
Proof.
  intros Ho Hd Hge.
  unfold updateTicketAvailability, try_catch, bind, throw, getDoc_ticketType,
    updateDoc_ticketType, request, rejected, bind, throw.
  rewrite Ho. simpl. rewrite Hd.
  rewrite (proj2 (Z.ltb_ge _ _) Hge). simpl. rewrite Ho. simpl. by rewrite Hd.
Qed.

(** X8: a reservation followed by a release of the same quantity (both
    served) restores the inventory: every ticket type has the
    availableQuantity it started with. *)
Theorem reserve_then_release ticketTypeId quantity w d :
  outages w = [] →
  col_ticketTypes w !! ticketTypeId = Some d →
  quantity ≤ td_availableQuantity d →
  0 ≤ td_availableQuantity d →
  ∃ w1 w2,
    updateTicketAvailability ticketTypeId (- quantity) w = (Ok tt, w1)
    ∧ available w1 ticketTypeId = Some (td_availableQuantity d - quantity)
    ∧ updateTicketAvailability ticketTypeId quantity w1 = (Ok tt, w2)
    ∧ col_ticketTypes w2 = col_ticketTypes w
    ∧ col_registrations w2 = col_registrations w.
Proof.
  intros Ho Hd Hq Hge.
  pose proof (updateTicketAvailability_served ticketTypeId (- quantity) w d Ho Hd
                ltac:(lia)) as H1.
  set (w1 := served _ _) in H1.
  set (d1 := with_availableQuantity (td_availableQuantity d + - quantity) d).
  assert (col_ticketTypes w1 !! ticketTypeId = Some d1) as Hd1.
  { subst w1. simpl. by rewrite lookup_alter_eq, Hd. }
  pose proof (updateTicketAvailability_served ticketTypeId quantity w1 d1 Ho Hd1
                ltac:(simpl; lia)) as H2.
  eexists w1, _. split; [exact H1 |].
  split; [unfold available; rewrite Hd1; simpl; f_equal; lia |].
  split; [exact H2 |]. split; [| done].
  simpl. apply map_eq. intros k. destruct (decide (ticketTypeId = k)) as [<- | Hne].
  - rewrite !lookup_alter_eq, Hd. simpl. f_equal.
    destruct d. unfold with_availableQuantity. simpl. f_equal. lia.
  - by rewrite !lookup_alter_ne.
Qed.

Lemma reserve_then_release_witness :
  let w := Scenario.four_left in
  let d := mkTicketTypeData "General Admission" 50 10 4 true in
  outages w = []
  ∧ col_ticketTypes w !! "t1" = Some d
  ∧ 3 ≤ td_availableQuantity d
  ∧ 0 ≤ td_availableQuantity d
  ∧ ∃ w1 w2,
      updateTicketAvailability "t1" (- 3) w = (Ok tt, w1)
      ∧ available w1 "t1" = Some (td_availableQuantity d - 3)
      ∧ updateTicketAvailability "t1" 3 w1 = (Ok tt, w2)
      ∧ col_ticketTypes w2 = col_ticketTypes w
      ∧ col_registrations w2 = col_registrations w.
Proof.
  intros w d.
  assert (outages w = []) as Ho by reflexivity.
  assert (col_ticketTypes w !! "t1" = Some d) as Hd by reflexivity.
  assert (3 ≤ td_availableQuantity d) as Hq by (simpl; lia).
  assert (0 ≤ td_availableQuantity d) as Hge by (simpl; lia).
  split; [exact Ho |]. split; [exact Hd |]. split; [exact Hq |]. split; [exact Hge |].
  exact (reserve_then_release "t1" 3 w d Ho Hd Hq Hge).
Defined.

(** X9: [updateTicketAvailability] on a ticket type that is not stored
    fails with ['Ticket type not found'] once its read is served, for any
    quantity change, and writes nothing. *)
Theorem updateTicketAvailability_missing ticketTypeId quantityChange w :
  col_ticketTypes w !! ticketTypeId = None →
  head (outages w) ≠ Some true →
  ∃ w',
    updateTicketAvailability ticketTypeId quantityChange w
    = (Throw "Ticket type not found", w')
    ∧ same_store w w'
    ∧ written_ticketTypes (journal w') = written_ticketTypes (journal w).
Proof.
  intros Hmissing Hup.
  unfold updateTicketAvailability, try_catch, bind, throw, getDoc_ticketType,
    request, rejected, bind, throw.
  destruct (outages w) as [| [] later]; [| done |]; simpl; rewrite Hmissing;
    eexists; (split; [reflexivity |]); (split; [by split |]); simpl;
    unfold written_ticketTypes; by rewrite omap_app, app_nil_r.
Qed.

Lemma updateTicketAvailability_missing_witness :
  col_ticketTypes Scenario.four_left !! "t9" = None
  ∧ head (outages Scenario.four_left) ≠ Some true
  ∧ ∃ w',
      updateTicketAvailability "t9" (- 1) Scenario.four_left
      = (Throw "Ticket type not found", w')
      ∧ same_store Scenario.four_left w'
      ∧ written_ticketTypes (journal w')
        = written_ticketTypes (journal Scenario.four_left).
Proof.
  assert (col_ticketTypes Scenario.four_left !! "t9" = None) as H by reflexivity.
  assert (head (outages Scenario.four_left) ≠ Some true) as Hup by (simpl; discriminate).
  split; [exact H |]. split; [exact Hup |].
  exact (updateTicketAvailability_missing "t9" (- 1) Scenario.four_left H Hup).
Defined.

(** ** Submissions that go through, and the first request failing *)



Lemma submitRegistration_run_code hook formConfig formData w :
  hk_formConfig hook = Some formConfig →
  validateAvailability (hk_ticketTypes hook) (fd_ticketSelections formData) = Ok tt →
  ∃ registrationData n,
    rd_eventId registrationData = hk_eventId hook
    ∧ rd_formConfigId registrationData = fc_id formConfig
    ∧ rd_ticketSelections registrationData = fd_ticketSelections formData
    ∧ p_input (rd_primaryParticipant registrationData) = fd_primaryParticipant formData
    ∧ String.length (rd_confirmationCode registrationData) = 8%nat
    ∧ drawn_from chars (rd_confirmationCode registrationData)
    ∧ submitRegistration hook formData w
      = (let* registrationId := createRegistration registrationData in
         reserve_each (fd_ticketSelections formData) >>
         ret (mkSubmitResult registrationId (rd_confirmationCode registrationData)))
          (set_cursor n w).
Proof.
  intros Hform Hvalid. unfold submitRegistration. rewrite Hform, Hvalid.
  unfold bind at 1. unfold settle.
  unfold bind at 1. destruct (randomUUID_run w) as [primaryId ->].
  unfold bind at 1.
  destruct (additional_from_run (hk_uploadedFiles hook)
              (fd_additionalParticipants formData) 0 (set_cursor (S (cursor w)) w))
    as [additional ->].
  unfold bind at 1. unfold Date_now at 1.
  unfold bind at 1.
  unfold generateConfirmationCode.
  edestruct (code_loop_format 8 "") as (code & -> & Hlen & Hdrawn).
  eexists _, _. repeat split; try reflexivity; [exact Hlen |].
  apply Hdrawn. constructor.
Qed.



(** X11: the confirmation code a successful submission returns is the one
    stored with the registration it created, and it is made of eight
    characters of [A-Z0-9]; the stored registration carries the primary
    participant of the form, its createdAt and updatedAt are one and the
    same instant, and it has no approvedAt. *)
Theorem submit_returns_stored_code hook formData w res w' :
  submitRegistration hook formData w = (Ok res, w') →
  ∃ registration,
    col_registrations w' !! registrationId res = Some registration
    ∧ r_confirmationCode registration = confirmationCode res
    ∧ String.length (confirmationCode res) = 8%nat
    ∧ drawn_from chars (confirmationCode res)
    ∧ p_input (r_primaryParticipant registration) = fd_primaryParticipant formData
    ∧ r_createdAt registration = r_updatedAt registration
    ∧ r_approvedAt registration = None.
Proof.
  intros H.
  destruct (hk_formConfig hook) as [formConfig|] eqn:Hform; cycle 1.
  { unfold submitRegistration in H. rewrite Hform in H. by unfold throw in H. }
  destruct (validateAvailability (hk_ticketTypes hook) (fd_ticketSelections formData))
    as [[]|e] eqn:Hvalid; cycle 1.
  { unfold submitRegistration in H. rewrite Hform, Hvalid in H.
    by unfold bind, settle in H. }
  destruct (submitRegistration_run_code hook formConfig formData w Hform Hvalid)
    as (data & n & _ & _ & _ & Hprimary & Hlen & Hdrawn & Hrun).
  rewrite Hrun in H. clear Hrun. unfold bind at 1 in H.
  destruct (createRegistration data (set_cursor n w)) as [r1 w1] eqn:Ec.
  apply createRegistration_inv in Ec
    as [(-> & _ & _) | (id & -> & _ & Hregs & _ & _)]; [done |].
  unfold bind at 1 in H.
  destruct (reserve_each (fd_ticketSelections formData) w1) as [r2 w2] eqn:El.
  apply reserve_each_inv in El as [Hregs2 _].
  destruct r2 as [[]|e]; unfold ret in H; [| done].
  injection H as <- <-. simpl.
  exists (stored data (clock w)).
  split; [by rewrite Hregs2, Hregs, lookup_insert_eq |].
  by repeat split.
Qed.

Lemma submit_returns_stored_code_witness :
  let out := submitRegistration Scenario.hook_four_left Scenario.two_tickets
               Scenario.four_left in
  ∃ res,
    out.1 = Ok res
    ∧ ∃ registration,
        col_registrations out.2 !! registrationId res = Some registration
        ∧ r_confirmationCode registration = confirmationCode res
        ∧ String.length (confirmationCode res) = 8%nat
        ∧ drawn_from chars (confirmationCode res)
        ∧ p_input (r_primaryParticipant registration)
          = fd_primaryParticipant Scenario.two_tickets
        ∧ r_createdAt registration = r_updatedAt registration
        ∧ r_approvedAt registration = None.
Proof.
  intros out.
  assert (∃ res, out = (Ok res, out.2)) as [res Hout].
  { eexists. vm_compute. reflexivity. }
  exists res. split; [by rewrite Hout |].
  exact (submit_returns_stored_code Scenario.hook_four_left Scenario.two_tickets
           Scenario.four_left res out.2 Hout).
Defined.

(** X12: when the request that stores the registration is refused, a
    submission that passed the availability check fails with
    ['Failed to create registration'] whatever the cause, and leaves both
    collections as they were: nothing is stored and nothing is reserved. *)
Theorem submit_creation_refused hook formConfig formData w later :
  hk_formConfig hook = Some formConfig →
  validateAvailability (hk_ticketTypes hook) (fd_ticketSelections formData) = Ok tt →
  outages w = true :: later →
  ∃ w',
    submitRegistration hook formData w = (Throw "Failed to create registration", w')
    ∧ same_store w w'
    ∧ journal w' = journal w
    ∧ outages w' = later.
Proof.
  intros Hform Hvalid Ho.
  destruct (submitRegistration_run hook formConfig formData w Hform Hvalid)
    as (data & n & _ & _ & _ & _ & _ & Hrun).
  rewrite Hrun. unfold bind at 1.
  unfold createRegistration, try_catch, bind, Date_now, addDoc_registration,
    request, rejected, bind, throw.
  change (outages (set_cursor n w)) with (outages w). rewrite Ho.
  eexists. split; [reflexivity |]. by repeat split.
Qed.

Lemma submit_creation_refused_witness :
  let w := set_outages [true] Scenario.four_left in
  hk_formConfig Scenario.hook_four_left = Some (Scenario.form false)
  ∧ validateAvailability (hk_ticketTypes Scenario.hook_four_left)
      (fd_ticketSelections Scenario.two_tickets) = Ok tt
  ∧ outages w = [true]
  ∧ ∃ w',
      submitRegistration Scenario.hook_four_left Scenario.two_tickets w
      = (Throw "Failed to create registration", w')
      ∧ same_store w w'
      ∧ journal w' = journal w
      ∧ outages w' = [].
Proof.
  intros w.
  assert (hk_formConfig Scenario.hook_four_left = Some (Scenario.form false))
    as Hform by reflexivity.
  assert (validateAvailability (hk_ticketTypes Scenario.hook_four_left)
            (fd_ticketSelections Scenario.two_tickets) = Ok tt)
    as Hvalid by (vm_compute; reflexivity).
  assert (outages w = [true]) as Ho by reflexivity.
  do 3 (split; [assumption |]).
  exact (submit_creation_refused Scenario.hook_four_left (Scenario.form false)
           Scenario.two_tickets w [] Hform Hvalid Ho).
Defined.

(** ** The uploaded files of the hook *)

Lemma without_index_from_out {A} (l : list A) : ∀ index fileIndex,
  fileIndex < index ∨ index + Z.of_nat (length l) ≤ fileIndex →
  without_index_from index fileIndex l = l.
Proof.
  induction l as [| x rest IH]; intros index fileIndex Hout; [done |].
  cbn [without_index_from]. rewrite bool_decide_true by (simpl in Hout; lia).
  f_equal. apply IH. simpl in Hout. lia.
Qed.

Lemma without_index_from_in {A} (l : list A) : ∀ index fileIndex,
  index ≤ fileIndex < index + Z.of_nat (length l) →
  without_index_from index fileIndex l
  = take (Z.to_nat (fileIndex - index)) l ++ drop (S (Z.to_nat (fileIndex - index))) l.
Proof.
  induction l as [| x rest IH]; intros index fileIndex Hin; [simpl in Hin; lia |].
  cbn [without_index_from]. destruct (decide (index = fileIndex)) as [-> | Hne].
  - rewrite bool_decide_false by (intros H; by apply H).
    rewrite Z.sub_diag. simpl. rewrite drop_0.
    apply without_index_from_out. lia.
  - rewrite bool_decide_true by done.
    replace (Z.to_nat (fileIndex - index))
      with (S (Z.to_nat (fileIndex - (index + 1)))) by lia.
    simpl. f_equal. apply IH. simpl in Hin. lia.
Qed.

Lemma upload_then_remove fieldId uploadedFile prev key :
  files_at
    (removeUploadedFile fieldId (Z.of_nat (length (files_at prev fieldId)))
       (uploaded fieldId uploadedFile prev))
    key
  = files_at prev key.
Proof.
  unfold removeUploadedFile, uploaded, files_at at 1.
  destruct (decide (fieldId = key)) as [<- | Hne].
  - rewrite !lookup_insert_eq. simpl. unfold without_index.
    rewrite without_index_from_in by (rewrite length_app; simpl; lia).
    rewrite Z.sub_0_r, Nat2Z.id.
    rewrite take_app_length, drop_ge by (rewrite length_app; simpl; lia).
    by rewrite app_nil_r.
  - by rewrite !lookup_insert_ne.
Qed.

(** X13: [removeUploadedFile] takes exactly the file at [fileIndex] out of
    the files of the field, leaves them as they are when there is no file
    at that index, and never touches the files of another field; removing,
    right after an upload, the file uploaded last gives back the files
    every field had before the upload. *)
Theorem removeUploadedFile_files fieldId fileIndex prev :
  (∀ key, key ≠ fieldId →
          files_at (removeUploadedFile fieldId fileIndex prev) key = files_at prev key)
  ∧ (0 ≤ fileIndex < Z.of_nat (length (files_at prev fieldId)) →
     files_at (removeUploadedFile fieldId fileIndex prev) fieldId
     = take (Z.to_nat fileIndex) (files_at prev fieldId)
       ++ drop (S (Z.to_nat fileIndex)) (files_at prev fieldId))
  ∧ (fileIndex < 0 ∨ Z.of_nat (length (files_at prev fieldId)) ≤ fileIndex →
     files_at (removeUploadedFile fieldId fileIndex prev) fieldId
     = files_at prev fieldId)
  ∧ ∀ uploadedFile key,
      files_at
        (removeUploadedFile fieldId (Z.of_nat (length (files_at prev fieldId)))
           (uploaded fieldId uploadedFile prev))
        key
      = files_at prev key.
Proof.
  unfold removeUploadedFile at 1 2 3. split; [| split; [| split]].
  - intros key Hne. unfold files_at. by rewrite lookup_insert_ne.
  - intros Hin. unfold files_at in *. rewrite lookup_insert_eq. simpl.
    destruct (prev !! fieldId) as [files|]; simpl in *; [| lia].
    unfold without_index. rewrite without_index_from_in by lia.
    by rewrite Z.sub_0_r.
  - intros Hout. unfold files_at in *. rewrite lookup_insert_eq. simpl.
    destruct (prev !! fieldId) as [files|]; simpl in *; [| done].
    unfold without_index. apply without_index_from_out. lia.
  - intros uploadedFile key. apply upload_then_remove.
Qed.

Lemma pretty_N_go_no_underscore x : ∀ s,
  Ascii.ascii_of_nat 95 ∉ String.list_ascii_of_string s →
  Ascii.ascii_of_nat 95 ∉ String.list_ascii_of_string (pretty_N_go x s).
Proof.
  induction (N.lt_wf_0 x) as [x _ IH]; intros s Hs.
  assert (x = 0 ∨ 0 < x)%N as [-> | Hpos] by lia.
  - by rewrite pretty_N_go_0.
  - rewrite pretty_N_go_step by done. apply IH.
    + by apply N.div_lt.
    + simpl. apply not_elem_of_cons. split; [| done].
      unfold pretty_N_char. by repeat case_match.
Qed.

Lemma pretty_nat_no_underscore (n : nat) :
  Ascii.ascii_of_nat 95 ∉ String.list_ascii_of_string (pretty n).
Proof.
  unfold pretty, pretty_nat, pretty, pretty_N. case_decide.
  - simpl. apply not_elem_of_cons. split; [done | apply not_elem_of_nil].
  - apply pretty_N_go_no_underscore. apply not_elem_of_nil.
Qed.

Lemma form_key_not_read key :
  form_key key →
  key ≠ "primary" ∧ ∀ index : nat, key ≠ "additional_" +:+ pretty index.
Proof.
  intros [[fieldId ->] | (i & fieldId & ->)].
  - split; [unfold primary_upload_key; simpl; discriminate |].
    intros index. unfold primary_upload_key. simpl. discriminate.
  - split; [unfold additional_upload_key; simpl; discriminate |].
    intros index Heq. unfold additional_upload_key in Heq.
    apply (inj (String.append "additional_")) in Heq.
    pose proof (pretty_nat_no_underscore index) as Hno.
    rewrite <- Heq in Hno. apply Hno.
    rewrite !list_ascii_append. simpl.
    apply elem_of_app. right. apply list_elem_of_here.
Qed.

Lemma form_uploads_keys uploadedFiles :
  form_uploads uploadedFiles → map_Forall (λ key _, form_key key) uploadedFiles.
Proof.
  induction 1 as [| key uploadedFile prev Hkey _ IH | key fileIndex prev Hkey _ IH].
  - apply map_Forall_empty.
  - unfold uploaded. by apply map_Forall_insert_2.
  - unfold removeUploadedFile. by apply map_Forall_insert_2.
Qed.

Lemma form_uploads_not_read uploadedFiles :
  form_uploads uploadedFiles →
  files_at uploadedFiles "primary" = []
  ∧ ∀ index : nat, files_at uploadedFiles ("additional_" +:+ pretty index) = [].
Proof.
  intros Hkeys%form_uploads_keys.
  assert (∀ key, ¬ form_key key → files_at uploadedFiles key = []) as Hnone.
  { intros key Hnot. unfold files_at.
    destruct (uploadedFiles !! key) as [files|] eqn:E; [| done].
    destruct Hnot. exact (Hkeys key files E). }
  split; [| intros index]; apply Hnone; intros Hkey;
    apply form_key_not_read in Hkey as [Hp Ha]; [done | by apply (Ha index)].
Qed.

Lemma additional_from_files u1 u2 participants :
  (∀ index : nat, files_at u1 ("additional_" +:+ pretty index)
                  = files_at u2 ("additional_" +:+ pretty index)) →
  ∀ index w, additional_from u1 index participants w
             = additional_from u2 index participants w.
Proof.
  intros Hsame. induction participants as [| p rest IH]; intros index w; [done |].
  cbn [additional_from]. unfold bind.
  destruct (randomUUID w) as [[id|e] w1]; [| done].
  rewrite IH. by rewrite Hsame.
Qed.

(** X14: [RegistrationForm] uploads and removes files under the keys
    [primary_<field>] and [additional_<index>_<field>], while
    [submitRegistration] reads [primary] and [additional_<index>]: whatever
    the form has uploaded, the submission runs exactly as with no file at
    all, so no uploaded file is attached to a participant. *)
Theorem form_uploads_never_attached hook formData w :
  form_uploads (hk_uploadedFiles hook) →
  submitRegistration hook formData w
  = submitRegistration (with_uploadedFiles ∅ hook) formData w.
Proof.
  intros [Hprimary Hadditional]%form_uploads_not_read.
  unfold submitRegistration, with_uploadedFiles. simpl.
  destruct (hk_formConfig hook) as [formConfig|]; [| done].
  unfold bind, settle.
  destruct (validateAvailability _ _) as [[]|e]; [| done].
  destruct (randomUUID w) as [[primaryId|e] w1]; [| done].
  rewrite (additional_from_files (hk_uploadedFiles hook) ∅); [| intros index].
  - by rewrite Hprimary.
  - by rewrite Hadditional.
Qed.

Lemma form_uploads_never_attached_witness :
  let resume := mkUploadedFile "file-1" "resume" "cv.pdf" "https://files/cv.pdf"
                  1024 "application/pdf" 1700000000000 in
  let hook := with_uploadedFiles (uploaded (primary_upload_key "resume") resume ∅)
                Scenario.hook_four_left in
  form_uploads (hk_uploadedFiles hook)
  ∧ submitRegistration hook Scenario.two_tickets Scenario.four_left
    = submitRegistration (with_uploadedFiles ∅ hook) Scenario.two_tickets
        Scenario.four_left.
Proof.
  intros resume hook.
  assert (form_uploads (hk_uploadedFiles hook)) as Hform.
  { apply form_uploads_uploaded; [| apply form_uploads_initial].
    left. by exists "resume". }
  split; [exact Hform |].
  exact (form_uploads_never_attached hook Scenario.two_tickets Scenario.four_left Hform).
Defined.

(** ** Free registrations and the quantities the hook reports *)








(** X16: for selections of at least one ticket each, the availability check
    of a submission passes exactly when no selection asks for more than
    [getAvailableTickets] reports for its ticket type; a ticket type that
    is not loaded counts as having none. *)
Theorem getAvailableTickets_decides hook selections :
  Forall (λ s, 1 ≤ sel_quantity s) selections →
  validateAvailability (hk_ticketTypes hook) selections = Ok tt
  ↔ Forall (λ s, sel_quantity s ≤ getAvailableTickets hook (sel_ticketTypeId s))
           selections.
Proof.
  intros Hone. rewrite validateAvailability_Ok.
  rewrite !Forall_forall in *. split; intros Hall s Hs;
    specialize (Hall s Hs); specialize (Hone s Hs);
    unfold offends, getAvailableTickets in *;
    destruct (find_ticketType _ _) as [t|]; simpl in *;
    try destruct (tt_availableQuantity t =? 0) eqn:E; try lia; tauto.
Qed.

Lemma getAvailableTickets_decides_witness :
  Forall (λ s, 1 ≤ sel_quantity s) (fd_ticketSelections Scenario.two_tickets)
  ∧ (validateAvailability (hk_ticketTypes Scenario.hook_four_left)
       (fd_ticketSelections Scenario.two_tickets) = Ok tt
     ↔ Forall (λ s, sel_quantity s
                    ≤ getAvailableTickets Scenario.hook_four_left (sel_ticketTypeId s))
              (fd_ticketSelections Scenario.two_tickets)).
Proof.
  assert (Forall (λ s, 1 ≤ sel_quantity s) (fd_ticketSelections Scenario.two_tickets))
    as Hone by (apply Forall_singleton; simpl; lia).
  split; [exact Hone |].
  exact (getAvailableTickets_decides Scenario.hook_four_left
           (fd_ticketSelections Scenario.two_tickets) Hone).
Defined.

(** ** What the compiled validators accept *)

(** X17: every validator [createCustomFieldValidation] builds accepts a
    missing value ([undefined]) exactly when the field is not required,
    whatever the type of the field. *)
Theorem custom_field_undefined
    (RegExp : string → option (string → bool)) (email_test : string → bool)
    (Date_parse : string → option Z) field validation :
  createCustomFieldValidation RegExp email_test Date_parse field = Ok validation →
  accepts validation JsUndefined = negb (cf_required field).
Proof.
  unfold createCustomFieldValidation, required_or_optional. intros H.
  destruct (cf_type field); try destruct (textValidation RegExp field);
    try destruct (cf_options field) as [[| o os]|];
    destruct (cf_required field); by simplify_eq.
Qed.

Lemma custom_field_undefined_witness :
  ∃ validation,
    createCustomFieldValidation (λ _, None) (λ _, true) (λ _, None)
      Scenario.required_text = Ok validation
    ∧ accepts validation JsUndefined = negb (cf_required Scenario.required_text).
Proof.
  eexists. split; [reflexivity |].
  exact (custom_field_undefined (λ _, None) (λ _, true) (λ _, None)
           Scenario.required_text _ eq_refl).
Defined.

(** X18: [createCustomFieldValidation] throws only on a text or textarea
    field whose declared pattern is a non-empty string that [RegExp]
    refuses; for every other field it returns a validator. *)
Theorem createCustomFieldValidation_throws
    (RegExp : string → option (string → bool)) (email_test : string → bool)
    (Date_parse : string → option Z) field :
  (∃ e, createCustomFieldValidation RegExp email_test Date_parse field = Throw e)
  ↔ (cf_type field = ft_text ∨ cf_type field = ft_textarea)
    ∧ ∃ pattern, declared fv_pattern field = Some pattern
                 ∧ pattern ≠ ""
                 ∧ RegExp pattern = None.
Proof.
  assert ((∃ e : string, textValidation RegExp field = Throw e)
          ↔ ∃ pattern, declared fv_pattern field = Some pattern
                       ∧ pattern ≠ "" ∧ RegExp pattern = None) as Htext.
  { unfold textValidation, truthy_string.
    destruct (declared fv_pattern field) as [pattern|]; cycle 1.
    { split; [by intros [e ?] | by intros (p & ? & _)]. }
    case_bool_decide as Hempty.
    { split; [by intros [e ?] | intros (p & [= <-] & Hne & _); by destruct Hne]. }
    destruct (RegExp pattern) as [test|] eqn:Ep.
    - split; [by intros [e ?] | intros (p & [= <-] & _ & Hp); congruence].
    - split; [intros _; by exists pattern | eauto]. }
  unfold createCustomFieldValidation.
  destruct (cf_type field) eqn:Etype;
    try (split; [intros [e He] | intros [[|] _]];
         repeat case_match; discriminate).
  - rewrite <- Htext. destruct (textValidation RegExp field) as [schema|e].
    + split; [by intros [e ?] | by intros [_ [e ?]]].
    + split; [intros _; split; eauto | eauto].
  - rewrite <- Htext. destruct (textValidation RegExp field) as [schema|e].
    + split; [by intros [e ?] | by intros [_ [e ?]]].
    + split; [intros _; split; eauto | eauto].
Qed.

(** X19: what a compiled validator lets through.  A checkbox takes only a
    boolean, and only [true] when it is required; a required file takes
    anything but [undefined] and [null]; every other type takes only a
    string; and only a field that is not required takes [undefined]. *)
Theorem custom_field_accepted_values
    (RegExp : string → option (string → bool)) (email_test : string → bool)
    (Date_parse : string → option Z) field validation value :
  createCustomFieldValidation RegExp email_test Date_parse field = Ok validation →
  accepts validation value = true →
  match cf_type field with
  | ft_checkbox =>
      value = JsBool true
      ∨ (cf_required field = false ∧ (value = JsBool false ∨ value = JsUndefined))
  | ft_file =>
      cf_required field = false ∨ (value ≠ JsUndefined ∧ value ≠ JsNull)
  | _ =>
      (∃ s, value = JsString s) ∨ (cf_required field = false ∧ value = JsUndefined)
  end.
Proof.
  unfold createCustomFieldValidation, required_or_optional, accepts. intros H Hacc.
  apply bool_decide_eq_true in Hacc.
  destruct (cf_type field); try destruct (textValidation RegExp field);
    try destruct (cf_options field) as [[| o os]|];
    destruct (cf_required field); simplify_eq;
    destruct value as [| | [] | | |]; simpl in Hacc; try discriminate; eauto.
  all: by right.
Qed.

Lemma custom_field_accepted_values_witness :
  ∃ validation,
    createCustomFieldValidation (λ _, None) (λ _, true) (λ _, None)
      Scenario.required_text = Ok validation
    ∧ accepts validation (JsString "Al") = true
    ∧ ((∃ s, JsString "Al" = JsString s)
       ∨ (cf_required Scenario.required_text = false ∧ JsString "Al" = JsUndefined)).
Proof.
  eexists. split; [reflexivity |]. split; [reflexivity |].
  exact (custom_field_accepted_values (λ _, None) (λ _, true) (λ _, None)
           Scenario.required_text _ (JsString "Al") eq_refl eq_refl).
Defined.

(** X20: a select field with options accepts a string exactly when it is
    one of the options; declared without options, or with an empty list of
    options, it accepts every string. *)
Theorem select_accepts_its_options
    (RegExp : string → option (string → bool)) (email_test : string → bool)
    (Date_parse : string → option Z) field validation s :
  cf_type field = ft_select →
  createCustomFieldValidation RegExp email_test Date_parse field = Ok validation →
  accepts validation (JsString s) = true
  ↔ match cf_options field with
    | Some (o :: os) => s ∈ o :: os
    | _ => True
    end.
Proof.
  unfold createCustomFieldValidation, required_or_optional, accepts.
  intros -> H. rewrite bool_decide_eq_true.
  destruct (cf_options field) as [[| o os]|]; destruct (cf_required field);
    simplify_eq; simpl; try done;
    case_bool_decide; split; try done; by intros _.
Qed.

Lemma select_accepts_its_options_witness :
  let size := mkCustomField "field-2" "size" "Size" ft_select true None
                (Some ["S"; "M"; "L"]) None 2 in
  cf_type size = ft_select
  ∧ ∃ validation,
      createCustomFieldValidation (λ _, None) (λ _, true) (λ _, None) size
      = Ok validation
      ∧ (accepts validation (JsString "M") = true
         ↔ match cf_options size with
           | Some (o :: os) => "M" ∈ o :: os
           | _ => True
           end).
Proof.
  intros size. split; [reflexivity |]. eexists. split; [reflexivity |].
  exact (select_accepts_its_options (λ _, None) (λ _, true) (λ _, None)
           size _ "M" eq_refl eq_refl).
Defined.

(** * Event utilities *)

(** X21: as time goes by, the status of an event only moves from upcoming
    to ongoing to past, never back; this holds as well for events with an
    invalid date or with an end before their start. *)
Theorem getEventStatus_monotone now later event :
  now ≤ later →
  status_rank (getEventStatus now event) ≤ status_rank (getEventStatus later event).
Proof.
  intros Hle. unfold getEventStatus, date_lt, date_ge, date_le.
  destruct (ev_startDate event) as [startDate|], (ev_endDate event) as [endDate|];
    simpl; compare_dates; simpl; lia.
Qed.

Lemma getEventStatus_monotone_witness :
  1700000000000 ≤ 1700003600000
  ∧ status_rank (getEventStatus 1700000000000 Gatherings.meetup)
    ≤ status_rank (getEventStatus 1700003600000 Gatherings.meetup).
Proof.
  assert (1700000000000 ≤ 1700003600000) as Hle by lia.
  split; [exact Hle |].
  exact (getEventStatus_monotone 1700000000000 1700003600000 Gatherings.meetup Hle).
Defined.

(** X22: an event with an invalid start date is past at every instant, and
    an event with an invalid end date is never ongoing. *)
Theorem getEventStatus_invalid_dates now event :
  (ev_startDate event = None → getEventStatus now event = past)
  ∧ (ev_endDate event = None → getEventStatus now event ≠ ongoing).
Proof.
  unfold getEventStatus, date_lt, date_ge, date_le. split.
  - by intros ->.
  - intros ->. destruct (ev_startDate event) as [startDate|]; simpl; [| done].
    compare_dates; done.
Qed.

(** X23: dates that [validateEventDates] lets through are both valid, the
    start is before the end, and the event is not past at the instant of
    the validation or at any earlier one: it is upcoming before that
    instant. *)
Theorem validated_dates_not_past now event :
  validateEventDates now (ev_startDate event) (ev_endDate event) = None →
  (∃ startDate endDate,
     ev_startDate event = Some startDate ∧ ev_endDate event = Some endDate
     ∧ now ≤ startDate < endDate)
  ∧ getEventStatus now event ≠ past
  ∧ ∀ earlier, earlier < now → getEventStatus earlier event = upcoming.
Proof.
  unfold validateEventDates, getEventStatus, isValid, date_lt, date_ge, date_le.
  destruct (ev_startDate event) as [startDate|], (ev_endDate event) as [endDate|];
    simpl; try done.
  destruct (Z.leb_spec endDate startDate) as [| Hbefore]; [done |].
  destruct (Z.ltb_spec startDate now) as [| Hfuture]; [done |]. intros _.
  split; [exists startDate, endDate; repeat split; lia |].
  split.
  - destruct (Z.ltb_spec now startDate); [done |]. simpl.
    destruct (Z.leb_spec startDate now); [| lia].
    destruct (Z.leb_spec now endDate); [done | lia].
  - intros earlier Hearlier. destruct (Z.ltb_spec earlier startDate); [done | lia].
Qed.

Lemma validated_dates_not_past_witness :
  validateEventDates 1699990000000 (ev_startDate Gatherings.meetup)
    (ev_endDate Gatherings.meetup) = None
  ∧ (∃ startDate endDate,
       ev_startDate Gatherings.meetup = Some startDate
       ∧ ev_endDate Gatherings.meetup = Some endDate
       ∧ 1699990000000 ≤ startDate < endDate)
  ∧ getEventStatus 1699990000000 Gatherings.meetup ≠ past
  ∧ ∀ earlier, earlier < 1699990000000 →
               getEventStatus earlier Gatherings.meetup = upcoming.
Proof.
  assert (validateEventDates 1699990000000 (ev_startDate Gatherings.meetup)
            (ev_endDate Gatherings.meetup) = None) as Hvalid by reflexivity.
  split; [exact Hvalid |].
  exact (validated_dates_not_past 1699990000000 Gatherings.meetup Hvalid).
Defined.

Lemma filterEventsByStatus_steady now status events : ∀ readings,
  steady now readings events →
  filterEventsByStatus readings events status
  = filter (λ event, getEventStatus now event = status) events.
Proof.
  induction events as [| event rest IH]; intros readings Hsteady; [done |].
  cbn [filterEventsByStatus]. rewrite filter_cons.
  rewrite (Hsteady 0%nat event eq_refl).
  rewrite (IH (λ i, readings (S i))); [done |].
  intros i e Hi. exact (Hsteady (S i) e Hi).
Qed.

(** X24: when no event changes status while the three passes run (every
    event has, at each instant it is examined, the status it has at one
    instant [now]), the three status filters split a list of events: every
    event is in exactly one of [filterEventsByStatus] upcoming, ongoing and
    past, whatever instants the passes read. *)
Theorem filterEventsByStatus_partition now upcoming_at ongoing_at past_at events :
  steady now upcoming_at events →
  steady now ongoing_at events →
  steady now past_at events →
  events ≡ₚ filterEventsByStatus upcoming_at events upcoming
            ++ filterEventsByStatus ongoing_at events ongoing
            ++ filterEventsByStatus past_at events past.
Proof.
  intros Hupcoming Hongoing Hpast.
  rewrite !(filterEventsByStatus_steady now) by done.
  clear. induction events as [| event events IH]; [done |].
  rewrite !filter_cons.
  destruct (getEventStatus now event); repeat case_decide; try done; simpl.
  - by constructor.
  - rewrite <- Permutation_middle. by constructor.
  - rewrite app_assoc, <- Permutation_middle, <- app_assoc. by constructor.
Qed.

Lemma filterEventsByStatus_partition_witness :
  let events := [Gatherings.meetup; Gatherings.workshop; Gatherings.gala] in
  let now := 1700000000000 in
  let upcoming_at := λ i : nat, now + Z.of_nat i in
  let ongoing_at := λ i : nat, now + 10 + Z.of_nat i in
  let past_at := λ i : nat, now + 20 + Z.of_nat i in
  steady now upcoming_at events
  ∧ steady now ongoing_at events
  ∧ steady now past_at events
  ∧ events ≡ₚ filterEventsByStatus upcoming_at events upcoming
              ++ filterEventsByStatus ongoing_at events ongoing
              ++ filterEventsByStatus past_at events past.
Proof.
  intros events now upcoming_at ongoing_at past_at.
  assert (steady now upcoming_at events) as Hupcoming.
  { intros [| [| [| i]]] event Hi; try discriminate Hi;
      injection Hi as <-; reflexivity. }
  assert (steady now ongoing_at events) as Hongoing.
  { intros [| [| [| i]]] event Hi; try discriminate Hi;
      injection Hi as <-; reflexivity. }
  assert (steady now past_at events) as Hpast.
  { intros [| [| [| i]]] event Hi; try discriminate Hi;
      injection Hi as <-; reflexivity. }
  split; [exact Hupcoming |]. split; [exact Hongoing |]. split; [exact Hpast |].
  exact (filterEventsByStatus_partition now upcoming_at ongoing_at past_at events
           Hupcoming Hongoing Hpast).
Defined.

(** Without that condition an event can escape all three passes: looked
    for among the past events before it starts, among the upcoming ones
    while it runs and among the ongoing ones after its end, the meetup is
    in none of the results. *)
Example event_between_passes :
  filterEventsByStatus (λ _, 1699999999000) [Gatherings.meetup] past = []
  ∧ filterEventsByStatus (λ _, 1700000001000) [Gatherings.meetup] upcoming = []
  ∧ filterEventsByStatus (λ _, 1700005401000) [Gatherings.meetup] ongoing = [].
Proof. repeat split. Qed.

(** X25: for valid dates [getEventDurationInDays] is the least number of
    whole days that covers the time from start to end (zero or negative
    when the end is not after the start); with an invalid date it is 0. *)
Theorem getEventDurationInDays_covers event :
  match ev_startDate event, ev_endDate event with
  | Some startDate, Some endDate =>
      (getEventDurationInDays event - 1) * 86400000
      < endDate - startDate
      ≤ getEventDurationInDays event * 86400000
  | _, _ => getEventDurationInDays event = 0
  end.
Proof.
  unfold getEventDurationInDays.
  destruct (ev_startDate event) as [startDate|], (ev_endDate event) as [endDate|];
    try done.
  simpl. Z.to_euclidean_division_equations. lia.
Qed.

(** X26: for an event that ends at or after its start, [getEventDuration]
    shows the whole hours and the remaining whole minutes of its length:
    minutes alone under an hour, hours alone on the hour, both otherwise. *)
Theorem getEventDuration_shows event startDate endDate :
  ev_startDate event = Some startDate →
  ev_endDate event = Some endDate →
  startDate ≤ endDate →
  ∃ hours minutes,
    0 ≤ hours ∧ 0 ≤ minutes < 60
    ∧ (hours * 60 + minutes) * 60000
      ≤ endDate - startDate
      < (hours * 60 + minutes + 1) * 60000
    ∧ getEventDuration event
      = if hours =? 0 then pretty minutes +:+ " minute" +:+ plural minutes
        else if minutes =? 0 then pretty hours +:+ " hour" +:+ plural hours
        else pretty hours +:+ "h " +:+ pretty minutes +:+ "m".
Proof.
  intros Hstart Hend Hle. unfold getEventDuration. rewrite Hstart, Hend.
  exists ((endDate - startDate) / (1000 * 60 * 60)),
         (Z.rem (endDate - startDate) (1000 * 60 * 60) / (1000 * 60)).
  split; [| split; [| split; [| done]]].
  - Z.to_euclidean_division_equations. lia.
  - rewrite Z.rem_mod_nonneg by lia. Z.to_euclidean_division_equations. lia.
  - rewrite Z.rem_mod_nonneg by lia. Z.to_euclidean_division_equations. lia.
Qed.

Lemma getEventDuration_shows_witness :
  ev_startDate Gatherings.meetup = Some 1700000000000
  ∧ ev_endDate Gatherings.meetup = Some 1700005400000
  ∧ 1700000000000 ≤ 1700005400000
  ∧ ∃ hours minutes,
      0 ≤ hours ∧ 0 ≤ minutes < 60
      ∧ (hours * 60 + minutes) * 60000
        ≤ 1700005400000 - 1700000000000
        < (hours * 60 + minutes + 1) * 60000
      ∧ getEventDuration Gatherings.meetup
        = if hours =? 0 then pretty minutes +:+ " minute" +:+ plural minutes
          else if minutes =? 0 then pretty hours +:+ " hour" +:+ plural hours
          else pretty hours +:+ "h " +:+ pretty minutes +:+ "m".
Proof.
  assert (1700000000000 ≤ 1700005400000) as Hle by lia.
  split; [reflexivity |]. split; [reflexivity |]. split; [exact Hle |].
  exact (getEventDuration_shows Gatherings.meetup 1700000000000 1700005400000
           eq_refl eq_refl Hle).
Defined.

(** ** Slugs *)

Lemma single_dashes_tail c s : single_dashes (c :: s) → single_dashes s.
Proof. destruct s; simpl; tauto. Qed.

Lemma single_dashes_app_l a : ∀ b, single_dashes (a ++ b) → single_dashes a.
Proof.
  induction a as [| c [| d a'] IH]; intros b H; try done.
  simpl in *. split; [tauto |]. apply (IH b). tauto.
Qed.

Lemma replace_runs_shape s : ∀ in_run,
  Forall (λ c, is_slug_char c = true ∨ c = dash) (replace_runs in_run s)
  ∧ single_dashes (replace_runs in_run s)
  ∧ (in_run = true → head (replace_runs in_run s) ≠ Some dash).
Proof.
  induction s as [| c rest IH]; intros in_run; [done |].
  cbn [replace_runs]. destruct (is_slug_char c) eqn:Ec.
  - destruct (IH false) as (Hall & Hsingle & _).
    split; [constructor; auto |]. split.
    + destruct (replace_runs false rest) as [| d r]; [done |].
      split; [| done]. intros [-> _]. by vm_compute in Ec.
    + intros _. simpl. intros [= ->]. by vm_compute in Ec.
  - destruct in_run; [apply IH |].
    destruct (IH true) as (Hall & Hsingle & Hhead).
    split; [constructor; auto |]. split; [| done].
    destruct (replace_runs true rest) as [| d r]; [done |].
    split; [| done]. intros [_ ->]. by apply Hhead.
Qed.

Lemma strip_leading_shape s :
  Forall (λ c, is_slug_char c = true ∨ c = dash) s →
  single_dashes s →
  Forall (λ c, is_slug_char c = true ∨ c = dash) (strip_leading s)
  ∧ single_dashes (strip_leading s)
  ∧ head (strip_leading s) ≠ Some dash.
Proof.
  induction s as [| c rest IH]; intros Hall Hsingle; [done |].
  cbn [strip_leading]. case_bool_decide as Hc.
  - apply IH; [by inversion Hall | by apply single_dashes_tail in Hsingle].
  - split; [done |]. split; [done |]. simpl. congruence.
Qed.

Lemma strip_trailing_prefix s : strip_trailing s `prefix_of` s.
Proof.
  induction s as [| c rest IH]; [done |]. cbn [strip_trailing].
  destruct (strip_trailing rest) as [| d kept].
  - case_bool_decide; [apply prefix_nil | apply prefix_cons, prefix_nil].
  - by apply prefix_cons.
Qed.

Lemma strip_trailing_last s : last (strip_trailing s) ≠ Some dash.
Proof.
  induction s as [| c rest IH]; [done |]. cbn [strip_trailing].
  destruct (strip_trailing rest) as [| d kept]; [| done].
  case_bool_decide; [done |]. simpl. congruence.
Qed.

Lemma slug_of_shaped title : slug_shaped (slug_of title).
Proof.
  unfold slug_of.
  destruct (replace_runs_shape (toLowerCase_char <$> title) false) as (Hall & Hsingle & _).
  destruct (strip_leading_shape _ Hall Hsingle) as (Hall' & Hsingle' & Hhead).
  set (s := strip_leading _) in *.
  destruct (strip_trailing_prefix s) as [dropped Hs].
  assert (Forall (λ c, is_slug_char c = true ∨ c = dash) (strip_trailing s)
          ∧ single_dashes (strip_trailing s)) as [? ?].
  { rewrite Hs in Hall', Hsingle'. apply Forall_app in Hall' as [? _].
    split; [done | by apply single_dashes_app_l in Hsingle']. }
  split; [done |]. split; [| split; [apply strip_trailing_last | done]].
  destruct (strip_trailing s) as [| c kept] eqn:E; [done |].
  rewrite Hs in Hhead. exact Hhead.
Qed.

Lemma toLowerCase_slug_char c :
  is_slug_char c = true ∨ c = dash → toLowerCase_char c = c.
Proof.
  intros [Hc | ->]; [| reflexivity].
  unfold toLowerCase_char, is_slug_char in *.
  set (n := Ascii.nat_of_ascii c) in *.
  destruct (Nat.leb_spec 65 n), (Nat.leb_spec n 90), (Nat.leb_spec 192 n),
    (Nat.leb_spec n 222); simpl; try done;
    destruct (Nat.leb_spec 97 n), (Nat.leb_spec n 122), (Nat.leb_spec 48 n),
      (Nat.leb_spec n 57); simpl in Hc; try done; lia.
Qed.

Lemma replace_runs_shaped s : ∀ in_run,
  Forall (λ c, is_slug_char c = true ∨ c = dash) s →
  single_dashes s →
  (in_run = true → head s ≠ Some dash) →
  replace_runs in_run s = s.
Proof.
  induction s as [| c rest IH]; intros in_run Hall Hsingle Hhead; [done |].
  apply Forall_cons in Hall as [Hc Hall].
  pose proof (single_dashes_tail _ _ Hsingle) as Hrest.
  cbn [replace_runs]. destruct Hc as [Hc | ->].
  - rewrite Hc. f_equal. by apply IH.
  - change (is_slug_char dash) with false. cbv iota.
    destruct in_run; [by destruct Hhead |].
    f_equal. apply IH; [done | done |]. intros _.
    destruct rest as [| d r]; [done |]. simpl in *. intros [= ->]. tauto.
Qed.

Lemma strip_leading_shaped s : head s ≠ Some dash → strip_leading s = s.
Proof.
  destruct s as [| c rest]; [done |]. simpl. intros Hhead.
  case_bool_decide; [by subst | done].
Qed.

Lemma strip_trailing_shaped s : last s ≠ Some dash → strip_trailing s = s.
Proof.
  induction s as [| c rest IH]; [done |]. intros Hlast. cbn [strip_trailing].
  destruct rest as [| d r].
  - simpl in *. case_bool_decide; [by subst | done].
  - rewrite IH by done. done.
Qed.

Lemma slug_of_fixed s : slug_shaped s → slug_of s = s.
Proof.
  intros (Hall & Hhead & Hlast & Hsingle). unfold slug_of.
  assert (toLowerCase_char <$> s = s) as ->.
  { clear -Hall. induction Hall as [| c s Hc _ IH]; [done |].
    rewrite fmap_cons, IH. f_equal. by apply toLowerCase_slug_char. }
  rewrite replace_runs_shaped by done.
  rewrite strip_leading_shaped by done.
  by apply strip_trailing_shaped.
Qed.

(** X27: whatever the title, [generateEventSlug] gives a string of
    characters of [[a-z0-9-]] that neither starts nor ends with a dash and
    has no two dashes in a row. *)
Theorem generateEventSlug_shaped title :
  slug_shaped (String.list_ascii_of_string (generateEventSlug title)).
Proof.
  unfold generateEventSlug. rewrite String.list_ascii_of_string_of_list_ascii.
  apply slug_of_shaped.
Qed.

(** X28: a string that already has the form of a slug is its own slug, so
    that [generateEventSlug] applied twice gives what it gives once. *)
Theorem generateEventSlug_idempotent :
  (∀ s, slug_shaped (String.list_ascii_of_string s) → generateEventSlug s = s)
  ∧ ∀ title, generateEventSlug (generateEventSlug title) = generateEventSlug title.
Proof.
  assert (∀ s, slug_shaped (String.list_ascii_of_string s) → generateEventSlug s = s)
    as Hfixed.
  { intros s Hs. unfold generateEventSlug. rewrite slug_of_fixed by done.
    apply String.string_of_list_ascii_of_string. }
  split; [exact Hfixed |].
  intros title. apply Hfixed.
  unfold generateEventSlug. rewrite String.list_ascii_of_string_of_list_ascii.
  apply slug_of_shaped.
Qed.

Example generateEventSlug_of_meetup :
  generateEventSlug (ev_title Gatherings.meetup) = "rocq-meetup-proofs-pizza"
  ∧ generateEventUrl Gatherings.meetup = "/event/e1/rocq-meetup-proofs-pizza".
Proof. split; reflexivity. Qed.

(** ** Sorting and filtering events *)

Lemma sort_insert_Permutation {A} (behind : A → A → bool) x l :
  sort_insert behind x l ≡ₚ x :: l.
Proof.
  induction l as [| y rest IH]; [done |]. simpl.
  destruct (behind x y); [| done]. rewrite IH. apply Permutation_swap.
Qed.

Lemma Array_sort_Permutation {A} (behind : A → A → bool) l :
  Array_sort behind l ≡ₚ l.
Proof.
  induction l as [| x rest IH]; [done |]. unfold Array_sort in *. simpl.
  by rewrite sort_insert_Permutation, IH.
Qed.

Lemma sort_insert_ties {A} (behind : A → A → bool) (P : A → Prop)
    `{∀ x, Decision (P x)} x l :
  (∀ y, behind x y = true → P x → ¬ P y) →
  filter P (sort_insert behind x l) = filter P (x :: l).
Proof.
  intros Hties. induction l as [| y rest IH]; [done |]. simpl.
  destruct (behind x y) eqn:E; [| done].
  rewrite filter_cons, IH, !filter_cons.
  specialize (Hties y E). repeat case_decide; try done. by destruct Hties.
Qed.

Lemma later_start_order direction a b :
  is_Some (ev_startDate a) → is_Some (ev_startDate b) →
  if later_start direction a b then start_order direction b a
  else start_order direction a b.
Proof.
  intros [dateA Ha] [dateB Hb]. unfold later_start, start_order. rewrite Ha, Hb.
  destruct direction; compare_dates; lia.
Qed.

Lemma sort_insert_Sorted direction x l :
  is_Some (ev_startDate x) →
  Forall (λ event, is_Some (ev_startDate event)) l →
  Sorted (start_order direction) l →
  Sorted (start_order direction) (sort_insert (later_start direction) x l).
Proof.
  intros Hx Hl Hsorted. induction Hsorted as [| y rest Hrest IH Hhd]; simpl.
  - by repeat constructor.
  - apply Forall_cons in Hl as [Hy Hl].
    pose proof (later_start_order direction x y Hx Hy) as Hxy.
    destruct (later_start direction x y).
    + constructor; [by apply IH |].
      destruct rest as [| z rest']; simpl; [by constructor |].
      destruct (later_start direction x z); constructor; [| done].
      by inversion Hhd.
    + constructor; [by constructor |]. by constructor.
Qed.

Lemma start_order_trans direction a b c :
  start_order direction a b → start_order direction b c → start_order direction a c.
Proof.
  unfold start_order.
  destruct (ev_startDate a), (ev_startDate b), (ev_startDate c), direction;
    try done; lia.
Qed.

Lemma Sorted_start_order_Forall direction y rest :
  Sorted (start_order direction) (y :: rest) →
  Forall (start_order direction y) rest.
Proof.
  intros Hsorted.
  apply Sorted_StronglySorted in Hsorted;
    [by inversion Hsorted | intros a b c; apply start_order_trans].
Qed.

Lemma sort_insert_first {A} (behind : A → A → bool) x l :
  Forall (λ z, behind x z = false) l → sort_insert behind x l = x :: l.
Proof. destruct 1 as [| z l Hz _]; [done |]. simpl. by rewrite Hz. Qed.

Lemma sort_insert_filter direction (P : Event → Prop) `{∀ x, Decision (P x)} x l :
  is_Some (ev_startDate x) →
  Forall (λ event, is_Some (ev_startDate event)) l →
  Sorted (start_order direction) l →
  filter P (sort_insert (later_start direction) x l)
  = if decide (P x) then sort_insert (later_start direction) x (filter P l)
    else filter P l.
Proof.
  intros Hx Hl Hsorted. induction l as [| y rest IH].
  { simpl. rewrite filter_cons, !filter_nil. by destruct (decide (P x)). }
  pose proof (Sorted_start_order_Forall _ _ _ Hsorted) as Hafter.
  apply Forall_cons in Hl as [Hy Hl].
  apply Sorted_inv in Hsorted as [Hsorted _].
  pose proof (later_start_order direction x y Hx Hy) as Hxy.
  simpl. destruct (later_start direction x y) eqn:E.
  - rewrite !filter_cons, IH by done.
    repeat case_decide; try done. simpl. by rewrite E.
  - destruct (decide (P x)) as [HP | HP].
    + rewrite filter_cons_True by done.
      rewrite sort_insert_first; [done |].
      apply Forall_forall. intros z Hz%list_elem_of_filter.
      destruct Hz as [_ Hz].
      assert (start_order direction x z) as Hxz.
      { apply elem_of_cons in Hz as [-> | Hz]; [done |].
        rewrite Forall_forall in Hafter.
        by apply (start_order_trans _ _ y), Hafter. }
      clear -Hxz. unfold start_order, later_start in *.
      destruct (ev_startDate x), (ev_startDate z), direction; try done;
        compare_dates; lia.
    + by rewrite filter_cons_False.
Qed.

Lemma sortEventsByDate_in_order events direction :
  Forall (λ event, is_Some (ev_startDate event)) events →
  Sorted (start_order direction) (sortEventsByDate events direction).
Proof.
  unfold sortEventsByDate, Array_sort.
  induction 1 as [| x rest Hx Hrest IH]; simpl; [constructor |].
  apply sort_insert_Sorted; [done | | done].
  pose proof (Array_sort_Permutation (later_start direction) rest) as Hperm.
  unfold Array_sort in Hperm. by rewrite Hperm.
Qed.

(** X29: on events whose start dates are all valid, [sortEventsByDate]
    returns the same events ordered by start date in the direction asked,
    and events that start at the same instant stay in the order they had. *)
Theorem sortEventsByDate_sorted events direction :
  Forall (λ event, is_Some (ev_startDate event)) events →
  sortEventsByDate events direction ≡ₚ events
  ∧ Sorted (start_order direction) (sortEventsByDate events direction)
  ∧ ∀ date, filter (λ event, ev_startDate event = date)
                   (sortEventsByDate events direction)
            = filter (λ event, ev_startDate event = date) events.
Proof.
  intros Hvalid. split; [apply Array_sort_Permutation |].
  split; [by apply sortEventsByDate_in_order |].
  intros date. unfold sortEventsByDate, Array_sort.
  induction events as [| x rest IH]; [done |]. simpl.
  apply Forall_cons in Hvalid as [Hx Hrest].
  rewrite sort_insert_ties, !filter_cons, IH; [done | done |].
  intros y Hbehind Hxd Hyd. unfold later_start in Hbehind.
  rewrite Hxd, Hyd in Hbehind.
  destruct date, direction; try done; rewrite Z.sub_diag in Hbehind; done.
Qed.

Lemma sortEventsByDate_sorted_witness :
  let events := [Gatherings.meetup; Gatherings.workshop; Gatherings.gala] in
  Forall (λ event, is_Some (ev_startDate event)) events
  ∧ sortEventsByDate events asc ≡ₚ events
  ∧ Sorted (start_order asc) (sortEventsByDate events asc)
  ∧ ∀ date, filter (λ event, ev_startDate event = date) (sortEventsByDate events asc)
            = filter (λ event, ev_startDate event = date) events.
Proof.
  intros events.
  assert (Forall (λ event, is_Some (ev_startDate event)) events) as Hvalid
    by (repeat constructor; by eexists).
  split; [exact Hvalid |].
  exact (sortEventsByDate_sorted events asc Hvalid).
Defined.

Lemma filter_sortEventsByDate (P : Event → Prop) `{∀ x, Decision (P x)}
    events direction :
  Forall (λ event, is_Some (ev_startDate event)) events →
  filter P (sortEventsByDate events direction)
  = sortEventsByDate (filter P events) direction.
Proof.
  induction 1 as [| x rest Hx Hrest IH]; [done |].
  unfold sortEventsByDate, Array_sort in *. cbn [foldr].
  pose proof (Array_sort_Permutation (later_start direction) rest) as Hperm.
  pose proof (sortEventsByDate_in_order rest direction Hrest) as Hsorted.
  unfold sortEventsByDate, Array_sort in Hperm, Hsorted.
  rewrite sort_insert_filter; [| done | by rewrite Hperm | done].
  rewrite filter_cons, IH. by destruct (decide (P x)).
Qed.

(** X30: on events whose start dates are all valid, sorting by date and
    filtering can be done in either order: each of the filters public,
    private and by organizer of the sorted events is the sorted list of
    the filtered events; so is the filter by status when no event changes
    status while the two passes run (every event has, at each instant it is
    examined, the status it has at one instant [now]). *)
Theorem filters_commute_with_sortEventsByDate events direction organizerEmail :
  Forall (λ event, is_Some (ev_startDate event)) events →
  filterPublicEvents (sortEventsByDate events direction)
  = sortEventsByDate (filterPublicEvents events) direction
  ∧ filterPrivateEvents (sortEventsByDate events direction)
    = sortEventsByDate (filterPrivateEvents events) direction
  ∧ filterEventsByOrganizer (sortEventsByDate events direction) organizerEmail
    = sortEventsByDate (filterEventsByOrganizer events organizerEmail) direction
  ∧ ∀ now status sorted_at listed_at,
      steady now sorted_at (sortEventsByDate events direction) →
      steady now listed_at events →
      filterEventsByStatus sorted_at (sortEventsByDate events direction) status
      = sortEventsByDate (filterEventsByStatus listed_at events status) direction.
Proof.
  intros Hvalid.
  unfold filterPublicEvents, filterPrivateEvents, filterEventsByOrganizer.
  split; [by apply filter_sortEventsByDate |].
  split; [by apply filter_sortEventsByDate |].
  split; [by apply filter_sortEventsByDate |].
  intros now status sorted_at listed_at Hsorted Hlisted.
  rewrite !(filterEventsByStatus_steady now) by done.
  by apply filter_sortEventsByDate.
Qed.

Lemma filters_commute_with_sortEventsByDate_witness :
  let events := [Gatherings.meetup; Gatherings.workshop; Gatherings.gala] in
  let now := 1700000000000 in
  let sorted_at := λ i : nat, now + Z.of_nat i in
  let listed_at := λ i : nat, now + 10 + Z.of_nat i in
  Forall (λ event, is_Some (ev_startDate event)) events
  ∧ steady now sorted_at (sortEventsByDate events desc)
  ∧ steady now listed_at events
  ∧ filterPublicEvents (sortEventsByDate events desc)
    = sortEventsByDate (filterPublicEvents events) desc
  ∧ filterPrivateEvents (sortEventsByDate events desc)
    = sortEventsByDate (filterPrivateEvents events) desc
  ∧ filterEventsByOrganizer (sortEventsByDate events desc) "org@example.com"
    = sortEventsByDate (filterEventsByOrganizer events "org@example.com") desc
  ∧ filterEventsByStatus sorted_at (sortEventsByDate events desc) ongoing
    = sortEventsByDate (filterEventsByStatus listed_at events ongoing) desc.
Proof.
  intros events now sorted_at listed_at.
  assert (Forall (λ event, is_Some (ev_startDate event)) events) as Hvalid
    by (repeat constructor; by eexists).
  assert (steady now sorted_at (sortEventsByDate events desc)) as Hsorted.
  { intros [| [| [| i]]] event Hi; try discriminate Hi;
      injection Hi as <-; reflexivity. }
  assert (steady now listed_at events) as Hlisted.
  { intros [| [| [| i]]] event Hi; try discriminate Hi;
      injection Hi as <-; reflexivity. }
  split; [exact Hvalid |]. split; [exact Hsorted |]. split; [exact Hlisted |].
  destruct (filters_commute_with_sortEventsByDate events desc "org@example.com" Hvalid)
    as (Hpublic & Hprivate & Horganizer & Hstatus).
  split; [exact Hpublic |]. split; [exact Hprivate |]. split; [exact Horganizer |].
  exact (Hstatus now ongoing sorted_at listed_at Hsorted Hlisted).
Defined.
